(** * LGA console: departure-rule resolver, reference index and weather helpers

    A shallow embedding of the pure logic of the console's script
    (the older [app.js] and its later revision, which agree on the logic of
    every function they share; where they differ, as in what [runTool]
    prints, the later one is followed) together with the properties its
    specification states and further properties of the code.

    Conventions of the embedding.
    - A JavaScript string is a [string]; whitespace ([trim], the regular
      expression class [\s]) and case mapping ([toUpperCase]) are modelled on
      the ASCII range, which is what the tab-separated tables and the METAR
      text use.  Characters outside ASCII are carried through unchanged.
    - A value that may be [undefined] (a column missing from a table row) is
      an [option string]; [norm] maps [None] to the empty string exactly as
      [(s ?? "").trim()] does.
    - A table row is a finite map from column names to cell texts.
    - A number is an IEEE 754 double, kept exactly (module [Num]).
    - A regular expression is a syntax tree run by a backtracking matcher
      (module [Re]).
    - The network, the page and the timers are outside the embedding: a
      function that reads them takes what it read as an argument. *)

From Stdlib Require Import ZArith Lia Bool Ascii String List Sorted.
From stdpp Require Import base option list gmap strings sorting.

Local Open Scope string_scope.
Local Open Scope Z_scope.
Local Arguments String.append !_ _ / : simpl nomatch.

(** ** Strings *)

Module Str.

Definition code (c : ascii) : N := N_of_ascii c.

(** White space of [String.prototype.trim] and of [\s], ASCII range:
    TAB, LF, VT, FF, CR and SPACE. *)
Definition isWhiteSpace (c : ascii) : bool :=
  let n := code c in
  (((9 <=? n) && (n <=? 13)) || (n =? 32))%N.

Definition isDigit (c : ascii) : bool :=
  let n := code c in ((48 <=? n) && (n <=? 57))%N.

Definition isLower (c : ascii) : bool :=
  let n := code c in ((97 <=? n) && (n <=? 122))%N.

Definition isUpper (c : ascii) : bool :=
  let n := code c in ((65 <=? n) && (n <=? 90))%N.

(** [\w]: letters, digits and the underscore. *)
Definition isWordChar (c : ascii) : bool :=
  isDigit c || isLower c || isUpper c || (code c =? 95)%N.

Definition upperChar (c : ascii) : ascii :=
  if isLower c then ascii_of_N (code c - 32) else c.

Fixpoint toUpperCase (s : string) : string :=
  match s with
  | EmptyString => EmptyString
  | String c t => String (upperChar c) (toUpperCase t)
  end.

Definition isEmpty (s : string) : bool :=
  match s with EmptyString => true | String _ _ => false end.

Fixpoint trimStart (s : string) : string :=
  match s with
  | EmptyString => EmptyString
  | String c t => if isWhiteSpace c then trimStart t else s
  end.

Fixpoint trimEnd (s : string) : string :=
  match s with
  | EmptyString => EmptyString
  | String c t =>
      let t' := trimEnd t in
      if isWhiteSpace c && isEmpty t' then EmptyString else String c t'
  end.

Definition trim (s : string) : string := trimEnd (trimStart s).

Fixpoint startsWith (s p : string) {struct p} : bool :=
  match p, s with
  | EmptyString, _ => true
  | String _ _, EmptyString => false
  | String a p', String b s' => Ascii.eqb a b && startsWith s' p'
  end.

(** [s.includes(p)]: [p] occurs in [s] as a contiguous substring. *)
Fixpoint includes (s p : string) : bool :=
  startsWith s p ||
  match s with
  | EmptyString => false
  | String _ t => includes t p
  end.

Fixpoint allChars (f : ascii -> bool) (s : string) : bool :=
  match s with
  | EmptyString => true
  | String c t => f c && allChars f t
  end.

End Str.

(** [norm(s)] is [(s ?? "").trim()]. *)
Definition norm (s : option string) : string :=
  Str.trim (default "" s).

(** ** Matching predicates of the rule engine *)

(** [matchField(ruleVal, inputVal)]. *)
Definition matchField (ruleVal inputVal : option string) : bool :=
  let r := norm ruleVal in
  let v := norm inputVal in
  if String.eqb r "*" || String.eqb r "" then true
  else if String.eqb v "" then false
  else String.eqb (Str.toUpperCase r) (Str.toUpperCase v).



Definition isWildcard (r : string) : bool :=
  String.eqb r "*" || String.eqb r "".

(** ** Numbers

    A JavaScript number is an IEEE 754 binary64 value.  Every finite one is
    a whole multiple of [2^-1074], so a finite number is kept as that
    multiple: [Fin k] stands for [k / 2^1074], exactly.  Each arithmetic
    operation computes the exact result and rounds it to the nearest
    representable value, ties to even, overflowing to an infinity, as the
    hardware does.  The sign of zero is not kept: nothing the modelled
    functions compute can observe it. *)

Module Num.

Inductive num : Type :=
| NaN
| Inf (negative : bool)
| Fin (k : Z).

(** The number 1 in units of [2^-1074]. *)
Definition U : Z := 2 ^ 1074.

(** Magnitudes from [2^1024] on are infinite. *)
Definition overflow : Z := 2 ^ 2098.

(** The integer nearest to [a / b], ties to the even one ([0 <= a], [0 < b]). *)
Definition rne (a b : Z) : Z :=
  let q := a / b in
  let r := a mod b in
  if 2 * r <? b then q
  else if b <? 2 * r then q + 1
  else if Z.even q then q else q + 1.

(** The representable magnitude nearest to [p / q] units ([0 <= p],
    [0 < q]): below [2^53] units every whole number of units is
    representable; from there on 53 significant bits are kept. *)
Definition round_pos (p q : Z) : Z :=
  let j := Z.max 0 (Z.log2 (p / q) - 52) in
  rne p (q * 2 ^ j) * 2 ^ j.

(** The number nearest to [p / q] units ([0 < q]). *)
Definition round (p q : Z) : num :=
  let k := round_pos (Z.abs p) q in
  if overflow <=? k then Inf (p <? 0) else Fin (Z.sgn p * k).

Definition ofZ (z : Z) : num := round (z * U) 1.

Definition isFinite (x : num) : bool :=
  match x with Fin _ => true | _ => false end.

Definition isNaN (x : num) : bool :=
  match x with NaN => true | _ => false end.

Definition neg (x : num) : num :=
  match x with
  | NaN => NaN
  | Inf b => Inf (negb b)
  | Fin k => Fin (- k)
  end.

Definition add (x y : num) : num :=
  match x, y with
  | NaN, _ | _, NaN => NaN
  | Inf a, Inf b => if Bool.eqb a b then Inf a else NaN
  | Inf a, Fin _ => Inf a
  | Fin _, Inf b => Inf b
  | Fin a, Fin b => round (a + b) 1
  end.

Definition sub (x y : num) : num := add x (neg y).

Definition mul (x y : num) : num :=
  match x, y with
  | NaN, _ | _, NaN => NaN
  | Inf a, Inf b => Inf (xorb a b)
  | Inf a, Fin k | Fin k, Inf a =>
      if k =? 0 then NaN else Inf (xorb a (k <? 0))
  | Fin a, Fin b => round (a * b) U
  end.

Definition div (x y : num) : num :=
  match x, y with
  | NaN, _ | _, NaN => NaN
  | Inf _, Inf _ => NaN
  | Inf a, Fin k => Inf (xorb a (k <? 0))
  | Fin _, Inf _ => Fin 0
  | Fin a, Fin b =>
      if b =? 0 then (if a =? 0 then NaN else Inf (a <? 0))
      else round (Z.sgn b * a * U) (Z.abs b)
  end.

(** The remainder operator [%]: exact, with the sign of the dividend. *)
Definition rem (x y : num) : num :=
  match x, y with
  | NaN, _ | _, NaN => NaN
  | Inf _, _ => NaN
  | Fin a, Inf _ => Fin a
  | Fin a, Fin b => if b =? 0 then NaN else Fin (Z.rem a b)
  end.

Definition ltb (x y : num) : bool :=
  match x, y with
  | NaN, _ | _, NaN => false
  | Inf a, Inf b => a && negb b
  | Inf a, Fin _ => a
  | Fin _, Inf b => negb b
  | Fin a, Fin b => a <? b
  end.

Definition eqb (x y : num) : bool :=
  match x, y with
  | Inf a, Inf b => Bool.eqb a b
  | Fin a, Fin b => a =? b
  | _, _ => false
  end.

Definition leb (x y : num) : bool := ltb x y || eqb x y.
Definition gtb (x y : num) : bool := ltb y x.
Definition geb (x y : num) : bool := leb y x.

(** [Math.min] of two numbers. *)
Definition min (x y : num) : num :=
  match x, y with
  | NaN, _ | _, NaN => NaN
  | _, _ => if ltb y x then y else x
  end.

(** A number used as a condition: false for zero and [NaN]. *)
Definition truthy (x : num) : bool :=
  match x with
  | NaN => false
  | Inf _ => true
  | Fin k => negb (k =? 0)
  end.

(** *** Text to number: [Number(s)] on a string *)

Definition digitValue (c : ascii) : Z :=
  let n := Z.of_N (Str.code c) in
  if Str.isDigit c then n - 48
  else if Str.isLower c then n - 87
  else n - 55.

Definition isHexDigit (c : ascii) : bool :=
  Str.isDigit c
  || ((97 <=? Str.code c) && (Str.code c <=? 102))%N
  || ((65 <=? Str.code c) && (Str.code c <=? 70))%N.

Definition isOctalDigit (c : ascii) : bool :=
  ((48 <=? Str.code c) && (Str.code c <=? 55))%N.

Definition isBinaryDigit (c : ascii) : bool :=
  ((48 <=? Str.code c) && (Str.code c <=? 49))%N.

Fixpoint valueIn (base acc : Z) (s : string) : Z :=
  match s with
  | EmptyString => acc
  | String c t => valueIn base (base * acc + digitValue c) t
  end.

Fixpoint spanDigits (s : string) : string * string :=
  match s with
  | String c t =>
      if Str.isDigit c
      then let (d, r) := spanDigits t in (String c d, r)
      else (EmptyString, s)
  | EmptyString => (EmptyString, EmptyString)
  end.

Definition allOf (p : ascii -> bool) (s : string) : bool :=
  negb (Str.isEmpty s) && Str.allChars p s.

(** [0x], [0o] and [0b] literals (either case of the letter, no sign). *)
Definition parseNonDecimal (t : string) : option Z :=
  match t with
  | String "0" (String x ds) =>
      if (Ascii.eqb x "x" || Ascii.eqb x "X") && allOf isHexDigit ds
      then Some (valueIn 16 0 ds)
      else if (Ascii.eqb x "o" || Ascii.eqb x "O") && allOf isOctalDigit ds
      then Some (valueIn 8 0 ds)
      else if (Ascii.eqb x "b" || Ascii.eqb x "B") && allOf isBinaryDigit ds
      then Some (valueIn 2 0 ds)
      else None
  | _ => None
  end.

(** An optional exponent part, up to the end of the text. *)
Definition parseExponent (s : string) : option Z :=
  match s with
  | EmptyString => Some 0
  | String e r =>
      if Ascii.eqb e "e" || Ascii.eqb e "E" then
        let '(negative, ds) :=
          match r with
          | String "+" ds => (false, ds)
          | String "-" ds => (true, ds)
          | _ => (false, r)
          end in
        if allOf Str.isDigit ds
        then Some (if negative then - valueIn 10 0 ds else valueIn 10 0 ds)
        else None
      else None
  end.

(** An unsigned decimal literal as mantissa and power of ten. *)
Definition parseUnsignedDecimal (u : string) : option (Z * Z) :=
  let (ip, r1) := spanDigits u in
  match r1 with
  | String "." r2 =>
      let (fp, r3) := spanDigits r2 in
      if Str.isEmpty ip && Str.isEmpty fp then None
      else match parseExponent r3 with
           | Some e => Some (valueIn 10 0 (ip ++ fp), e - Z.of_nat (String.length fp))
           | None => None
           end
  | _ =>
      if Str.isEmpty ip then None
      else match parseExponent r1 with
           | Some e => Some (valueIn 10 0 ip, e)
           | None => None
           end
  end.

(** The number nearest to [m * 10^e]. *)
Definition ofDecimal (m e : Z) : num :=
  if 0 <=? e then round (m * 10 ^ e * U) 1 else round (m * U) (10 ^ (- e)).

Definition ofString (s : string) : num :=
  let t := Str.trim s in
  if Str.isEmpty t then Fin 0
  else
    match parseNonDecimal t with
    | Some n => ofZ n
    | None =>
        let '(negative, u) :=
          match t with
          | String "+" u => (false, u)
          | String "-" u => (true, u)
          | _ => (false, t)
          end in
        if String.eqb u "Infinity" then Inf negative
        else
          match parseUnsignedDecimal u with
          | Some (m, e) => ofDecimal (if negative then - m else m) e
          | None => NaN
          end
    end.

(** [Number(v)] on a value that may be [undefined]. *)
Definition Number (v : option string) : num :=
  match v with
  | Some s => ofString s
  | None => NaN
  end.


(** *** Number to text: template literals and [toFixed] *)

Definition digitChar (d : Z) : ascii := ascii_of_N (Z.to_N (48 + d)).

Fixpoint digitsFrom (fuel : nat) (n : Z) (acc : string) : string :=
  match fuel with
  | O => acc
  | S fuel' =>
      let acc' := String (digitChar (n mod 10)) acc in
      if n <? 10 then acc' else digitsFrom fuel' (n / 10) acc'
  end.

(** The decimal digits of a natural number (it has no more digits than
    bits). *)
Definition digits (n : Z) : string :=
  digitsFrom (S (Z.to_nat (Z.log2 n))) n "".

Fixpoint zeros (n : nat) : string :=
  match n with
  | O => EmptyString
  | S n' => String "0" (zeros n')
  end.

Fixpoint takeS (n : nat) (s : string) : string :=
  match n, s with
  | S n', String c t => String c (takeS n' t)
  | _, _ => EmptyString
  end.

Fixpoint dropS (n : nat) (s : string) : string :=
  match n, s with
  | S n', String _ t => dropS n' t
  | _, _ => s
  end.

(** [x < 10^n] for a positive [x] of [k] units. *)
Definition belowPow10 (k n : Z) : bool :=
  if 0 <=? n then k <? 10 ^ n * U else k * 10 ^ (- n) <? U.

Fixpoint leastPow10 (fuel : nat) (k n : Z) : Z :=
  match fuel with
  | O => n
  | S fuel' => if belowPow10 k n then n else leastPow10 fuel' k (n + 1)
  end.

(** The [n] with [10^(n-1) <= x < 10^n], searched upwards from an
    estimate that the binary logarithm gives and that is never above it. *)
Definition magnitude (k : Z) : Z :=
  leastPow10 8 k ((Z.log2 k - 1074) * 30103 / 100000 - 1).

(** A decimal candidate [s * 10^(n-d)] with [d] digits for the number of
    [k] units, together with its distance from that number as a fraction. *)
Record candidate : Type := Candidate {
  c_s : Z; c_n : Z; c_dist_num : Z; c_dist_den : Z
}.

Definition candidateOf (k d n s : Z) : option candidate :=
  if (10 ^ (d - 1) <=? s) && (s <? 10 ^ d)
     && eqb (ofDecimal s (n - d)) (Fin k)
  then
    Some (if 0 <=? n - d
          then Candidate s n (Z.abs (s * 10 ^ (n - d) * U - k)) 1
          else Candidate s n (Z.abs (s * U - k * 10 ^ (d - n))) (10 ^ (d - n)))
  else None.

Definition floorScaled (k e : Z) : Z :=
  if 0 <=? e then k / (U * 10 ^ e) else (k * 10 ^ (- e)) / U.

Definition closer (a b : candidate) : bool :=
  let l := c_dist_num a * c_dist_den b in
  let r := c_dist_num b * c_dist_den a in
  (l <? r) || ((l =? r) && Z.even (c_s a)).

Definition best (cs : list (option candidate)) : option candidate :=
  fold_left (fun acc c =>
    match acc, c with
    | None, _ => c
    | Some a, Some b => if closer a b then Some a else Some b
    | Some a, None => Some a
    end) cs None.

(** The candidates with [d] digits: the two integers around [x / 10^(n-d)],
    for the magnitude [n] of [x] and for the next one (a number just below a
    power of ten can be written as that power). *)
Definition candidatesWith (k n0 d : Z) : option candidate :=
  best (flat_map (fun n =>
          let f := floorScaled k (n - d) in
          [candidateOf k d n f; candidateOf k d n (f + 1)])
        [n0; n0 + 1]).

(** The shortest decimal that reads back as the number, nearest to it
    among the shortest: seventeen digits always suffice. *)
Fixpoint shortest (fuel : nat) (k n0 d : Z) : candidate :=
  match fuel with
  | O => Candidate 0 0 0 1
  | S fuel' =>
      match candidatesWith k n0 d with
      | Some c => c
      | None => shortest fuel' k n0 (d + 1)
      end
  end.

Definition formatPositive (k : Z) : string :=
  let c := shortest 17 k (magnitude k) 1 in
  let ds := digits (c_s c) in
  let d := Z.of_nat (String.length ds) in
  let n := c_n c in
  if (d <=? n) && (n <=? 21) then ds ++ zeros (Z.to_nat (n - d))
  else if (0 <? n) && (n <=? 21)
  then takeS (Z.to_nat n) ds ++ "." ++ dropS (Z.to_nat n) ds
  else if (-6 <? n) && (n <=? 0) then "0." ++ zeros (Z.to_nat (- n)) ++ ds
  else
    let e := n - 1 in
    let es := (if 0 <=? e then "+" else "-") ++ digits (Z.abs e) in
    if d =? 1 then ds ++ "e" ++ es
    else takeS 1 ds ++ "." ++ dropS 1 ds ++ "e" ++ es.

(** The text of a number, as [String(x)] and template literals give it. *)
Definition toString (x : num) : string :=
  match x with
  | NaN => "NaN"
  | Inf false => "Infinity"
  | Inf true => "-Infinity"
  | Fin k =>
      if k =? 0 then "0"
      else if k <? 0 then "-" ++ formatPositive (- k)
      else formatPositive k
  end.

(** The digits of a count [n] of hundredths: at least one before the dot,
    two after it. *)
Definition fixed2 (n : Z) : string :=
  let m := digits n in
  let m := if (String.length m <=? 2)%nat
           then zeros (3 - String.length m)%nat ++ m else m in
  let a := (String.length m - 2)%nat in
  takeS a m ++ "." ++ dropS a m.

(** [x.toFixed(2)]: the nearest count of hundredths, the larger one on a
    tie; from [10^21] on, the plain text of the number. *)
Definition toFixed2 (x : num) : string :=
  match x with
  | Fin k =>
      let s := if k <? 0 then "-" else "" in
      let a := Z.abs k in
      if 10 ^ 21 * U <=? a then s ++ toString (Fin a)
      else s ++ fixed2 ((200 * a + U) / (2 * U))
  | _ => toString x
  end.

End Num.

Abbreviation num := Num.num.

(** ** Regular expressions

    The script's regular expressions are kept as syntax trees and run by a
    backtracking matcher with ECMAScript's priorities: alternatives are tried
    left to right, [*] is greedy and gives characters back one at a time, and
    an iteration of [*] that consumes nothing is rejected. *)

Module Re.

Inductive regex : Type :=
| Eps
| Chr (p : ascii -> bool)
| Seq (a b : regex)
| Alt (a b : regex)
| Star (a : regex)
| Group (n : nat) (a : regex)
| WordBoundary
| Bol
| Eol.

Definition Plus (a : regex) : regex := Seq a (Star a).
Definition lit (c : ascii) : regex := Chr (Ascii.eqb c).

Fixpoint word (s : string) : regex :=
  match s with
  | EmptyString => Eps
  | String c EmptyString => lit c
  | String c t => Seq (lit c) (word t)
  end.

(** A position in the subject: the character just before it (none at the
    start), the text still to read, and the groups captured so far, the
    most recent first. *)
Record mstate : Type := MState {
  prev : option ascii;
  rest : string;
  caps : list (nat * string)
}.

Definition isWordOpt (c : option ascii) : bool :=
  match c with Some x => Str.isWordChar x | None => false end.

Definition next (s : string) : option ascii :=
  match s with String c _ => Some c | EmptyString => None end.

Definition consumed (before after : string) : string :=
  substring 0 (String.length before - String.length after) before.

Fixpoint run (r : regex) (st : mstate) (k : mstate -> option mstate)
  {struct r} : option mstate :=
  match r with
  | Eps => k st
  | Chr p =>
      match rest st with
      | String c t => if p c then k (MState (Some c) t (caps st)) else None
      | EmptyString => None
      end
  | Seq a b => run a st (fun st' => run b st' k)
  | Alt a b =>
      match run a st k with
      | Some e => Some e
      | None => run b st k
      end
  | Star a =>
      (fix loop (n : nat) (st : mstate) {struct n} : option mstate :=
         match n with
         | O => k st
         | S n' =>
             match run a st (fun st' =>
                     if (String.length (rest st') <? String.length (rest st))%nat
                     then loop n' st' else None) with
             | Some e => Some e
             | None => k st
             end
         end) (String.length (rest st)) st
  | Group n a =>
      run a st (fun st' =>
        k (MState (prev st') (rest st')
             ((n, consumed (rest st) (rest st')) :: caps st')))
  | WordBoundary =>
      if xorb (isWordOpt (prev st)) (isWordOpt (next (rest st)))
      then k st else None
  | Bol => match prev st with None => k st | Some _ => None end
  | Eol => match rest st with EmptyString => k st | String _ _ => None end
  end.

(** A match attempted at one position only (the sticky match that
    [split] and the global operations are built from). *)
Definition sticky (r : regex) (p : option ascii) (s : string) : option mstate :=
  run r (MState p s []) Some.

Record hit : Type := Hit {
  matched : string;
  groups : list (nat * string)
}.

Definition group (h : hit) (n : nat) : option string :=
  snd <$> List.find (fun c => Nat.eqb (fst c) n) (groups h).

(** [s.match(r)] for a regular expression without the [g] flag: the
    leftmost position at which [r] matches. *)
Fixpoint exec_from (r : regex) (p : option ascii) (s : string) : option hit :=
  match sticky r p s with
  | Some e => Some (Hit (consumed s (rest e)) (caps e))
  | None =>
      match s with
      | String c t => exec_from r (Some c) t
      | EmptyString => None
      end
  end.

Definition exec (r : regex) (s : string) : option hit := exec_from r None s.

(** [r.test(s)]. *)
Definition test (r : regex) (s : string) : bool :=
  match exec r s with Some _ => true | None => false end.

(** [s.matchAll(r)] for a [g] regular expression: successive matches, each
    searched from the end of the previous one (one character further after
    an empty match). *)
Fixpoint matchAll_from (r : regex) (fuel : nat) (p : option ascii) (s : string)
  : list hit :=
  match fuel with
  | O => []
  | S fuel' =>
      match sticky r p s with
      | Some e =>
          let h := Hit (consumed s (rest e)) (caps e) in
          if (String.length (rest e) <? String.length s)%nat
          then h :: matchAll_from r fuel' (prev e) (rest e)
          else match s with
               | String c t => h :: matchAll_from r fuel' (Some c) t
               | EmptyString => [h]
               end
      | None =>
          match s with
          | String c t => matchAll_from r fuel' (Some c) t
          | EmptyString => []
          end
      end
  end.

Definition matchAll (r : regex) (s : string) : list hit :=
  matchAll_from r (S (String.length s)) None s.

(** [s.replace(r, by)] for a [g] regular expression and a constant
    replacement text. *)
Fixpoint replaceAll_from (r : regex) (by_ : string) (fuel : nat)
  (p : option ascii) (s : string) : string :=
  match fuel with
  | O => s
  | S fuel' =>
      match sticky r p s with
      | Some e =>
          if (String.length (rest e) <? String.length s)%nat
          then by_ ++ replaceAll_from r by_ fuel' (prev e) (rest e)
          else match s with
               | String c t => by_ ++ String c (replaceAll_from r by_ fuel' (Some c) t)
               | EmptyString => by_
               end
      | None =>
          match s with
          | String c t => String c (replaceAll_from r by_ fuel' (Some c) t)
          | EmptyString => EmptyString
          end
      end
  end.

Definition replaceAll (r : regex) (by_ : string) (s : string) : string :=
  replaceAll_from r by_ (S (String.length s)) None s.

(** [s.split(r)].  [acc] is the piece being read (from the end [p] of the
    previous separator to the scan position [q]); a separator found at [q]
    closes the piece unless it is empty and the piece is too (the test
    [e = p] of the language definition), in which case the scan moves on by
    one character. *)
Fixpoint split_loop (r : regex) (fuel : nat) (p : option ascii)
  (acc s : string) : list string :=
  match fuel with
  | O => [acc ++ s]
  | S fuel' =>
      match s with
      | EmptyString => [acc]
      | String c t =>
          match sticky r p s with
          | Some e =>
              if Nat.eqb (String.length (rest e)) (String.length s) && Str.isEmpty acc
              then split_loop r fuel' (Some c) (acc ++ String c "") t
              else acc :: split_loop r fuel' (prev e) "" (rest e)
          | None => split_loop r fuel' (Some c) (acc ++ String c "") t
          end
      end
  end.

Definition split (r : regex) (s : string) : list string :=
  match s with
  | EmptyString =>
      match sticky r None "" with Some _ => [] | None => [""] end
  | String _ _ => split_loop r (2 * String.length s + 1) None "" s
  end.

End Re.

(** [\s], [\d] and the separator of an airspace requirement,
    [/\s*\+\s*|\s*,\s*|\s*&\s*/g]. *)
Definition re_s : Re.regex := Re.Chr Str.isWhiteSpace.
Definition re_d : Re.regex := Re.Chr Str.isDigit.

Definition airspaceSeparator : Re.regex :=
  Re.Alt (Re.Seq (Re.Star re_s) (Re.Seq (Re.lit "+") (Re.Star re_s)))
 (Re.Alt (Re.Seq (Re.Star re_s) (Re.Seq (Re.lit ",") (Re.Star re_s)))
         (Re.Seq (Re.Star re_s) (Re.Seq (Re.lit "&") (Re.Star re_s)))).

(** The required tokens of a rule value:
    [r.toUpperCase().split(...).map(s => s.trim()).filter(Boolean)]. *)
Definition reqParts (r : string) : list string :=
  List.filter (fun s => negb (Str.isEmpty s))
    (List.map Str.trim (Re.split airspaceSeparator (Str.toUpperCase r))).

(** [matchAirspace(ruleVal, inputVal)]. *)
Definition matchAirspace (ruleVal inputVal : option string) : bool :=
  let r := norm ruleVal in
  let v := norm inputVal in
  if String.eqb r "*" || String.eqb r "" then true
  else if String.eqb v "" then false
  else
    let V := Str.toUpperCase v in
    forallb (fun part => Str.includes V part) (reqParts r).

(** The specification's wording of the airspace requirement: the rule
    value is cut at every [+], [,] and [&]; white space around a separator
    belongs to no token, so each piece is trimmed; every token has to occur
    in the input as a substring, both sides in upper case. *)
Definition isSeparatorChar (c : ascii) : bool :=
  Ascii.eqb "+" c || Ascii.eqb "," c || Ascii.eqb "&" c.

Fixpoint splitOnSeparators (acc s : string) : list string :=
  match s with
  | EmptyString => [acc]
  | String c t =>
      if isSeparatorChar c then acc :: splitOnSeparators "" t
      else splitOnSeparators (acc ++ String c "") t
  end.

Definition requiredTokens (r : string) : list string :=
  List.map Str.trim (splitOnSeparators "" r).

Definition isSubstring (p s : string) : Prop :=
  exists a b, s = a ++ p ++ b.

(** ** Tables and the departure-rule engine *)

(** A row of a table: column name to cell text.  A column that the table
    does not have reads as [undefined]. *)
Abbreviation Row := (gmap string string).

(** The canonical input vector. *)
Record Inputs : Type := {
  DEP_RWY : option string;
  LGA_LDG_CLASS : option string;
  LGA_AIRSPACE : option string;
  JFK_AIRSPACE : option string;
  EXIT_GATE_DIR : option string;
  EXIT_FIX : option string;
  ACFT_TYPE : option string
}.

(** The tables loaded at start-up (the script's module-level variables). *)
Record Tables : Type := {
  lgaConfigRows : list Row;
  jfkConfigRows : list Row;
  gatesRows : list Row;
  depRulesRows : list Row;
  routesRows : list Row
}.

(** How [Array.prototype.sort] reads the comparator's answer: [NaN] counts
    as zero. *)
Definition sortOrder (v : num) : comparison :=
  match v with
  | Num.NaN => Eq
  | Num.Inf true => Lt
  | Num.Inf false => Gt
  | Num.Fin k => Z.compare k 0
  end.

(** [Array.prototype.sort] is stable.  For a comparator that orders its
    arguments consistently the result is the one stable arrangement,
    whatever procedure the engine runs; the model builds it by inserting
    each element, from the last to the first, in front of the first element
    it does not come after. *)
Fixpoint insertSorted {A : Type} (comparefn : A -> A -> num) (x : A) (l : list A)
  : list A :=
  match l with
  | [] => [x]
  | y :: l' =>
      match sortOrder (comparefn x y) with
      | Gt => y :: insertSorted comparefn x l'
      | _ => x :: l
      end
  end.

Definition sort {A : Type} (comparefn : A -> A -> num) (l : list A) : list A :=
  foldr (insertSorted comparefn) [] l.

(** The seven field predicates of a rule against an input vector. *)
Definition satisfies (inputs : Inputs) (r : Row) : bool :=
  matchField (r !! "DEP_RWY") (DEP_RWY inputs) &&
  matchAirspace (r !! "LGA_AIRSPACE_REQ") (LGA_AIRSPACE inputs) &&
  matchAirspace (r !! "JFK_AIRSPACE_REQ") (JFK_AIRSPACE inputs) &&
  matchField (r !! "EXIT_GATE_DIR") (EXIT_GATE_DIR inputs) &&
  matchField (r !! "EXIT_FIX_REQ") (EXIT_FIX inputs) &&
  matchField (r !! "ACFT_TYPE") (ACFT_TYPE inputs) &&
  matchField (r !! "LGA_LDG_CLASS_REQ") (LGA_LDG_CLASS inputs).

(** [Number(r.PRIORITY)]. *)
Definition priority (r : Row) : num := Num.Number (r !! "PRIORITY").

Definition byPriority (a b : Row) : num := Num.sub (priority a) (priority b).

(** [pickDepartureRule(inputs)]; [None] is the script's [null]. *)
Definition pickDepartureRule (t : Tables) (inputs : Inputs) : option Row :=
  let matches := List.filter (satisfies inputs) (depRulesRows t) in
  match matches with
  | [] => None
  | _ => head (sort byPriority matches)
  end.

(** [isClimbViaSidFromProcedure(procStr)]. *)
Definition isClimbViaSidFromProcedure (procStr : option string) : bool :=
  let p := Str.toUpperCase (norm procStr) in
  if Str.isEmpty p then false
  else
    let pNorm := Re.replaceAll (Re.Plus re_s) "." p in
    if Str.includes pNorm "LGA7.MASPETH" then true
    else if Str.includes pNorm "LGA7.CONEY" then true
    else
      existsb (fun k => Str.includes pNorm (k ++ "#") || Str.includes pNorm k)
        ["HOPEA"; "JUTES"; "TNNIS"; "NTHNS"; "GLDMN"].

(** The climb instruction that [runTool] shows for a selected rule. *)
Definition climbText (rule : Row) : string :=
  let proc := norm (rule !! "OUTPUT") in
  if isClimbViaSidFromProcedure (Some proc)
  then "CLIMB VIA SID" else "CLIMB AND MAINTAIN 5,000".

(** [rows.find(pred)]. *)
Definition findRow (pred : Row -> bool) (rows : list Row) : option Row :=
  List.find pred rows.

(** [getGateDirection(exitFix)]. *)
Definition getGateDirection (t : Tables) (exitFix : option string) : string :=
  let ef := Str.toUpperCase (norm exitFix) in
  match findRow (fun r => String.eqb (Str.toUpperCase (norm (r !! "Gate"))) ef)
          (gatesRows t) with
  | Some row => norm (row !! "Direction")
  | None => ""
  end.

(** [getLgaDerived(lgaConfig)]: departure runway and landing class. *)
Definition getLgaDerived (t : Tables) (lgaConfig : option string) : string * string :=
  match findRow (fun r => String.eqb (norm (r !! "LGA_ATIS_Config")) (norm lgaConfig))
          (lgaConfigRows t) with
  | Some row => (norm (row !! "DEP_RWY"), norm (row !! "LGA_LDG_CLASS"))
  | None => ("", "")
  end.

(** [getAirspaceFromJfkConfig(jfkConfig)]: JFK and LGA airspace. *)
Definition getAirspaceFromJfkConfig (t : Tables) (jfkConfig : option string)
  : string * string :=
  match findRow (fun r => String.eqb (norm (r !! "JFK_ATIS_Config")) (norm jfkConfig))
          (jfkConfigRows t) with
  | Some row => (norm (row !! "JFK_AIRSPACE"), norm (row !! "LGA_AIRSPACE"))
  | None => ("", "")
  end.

(** The input vector that [runTool] derives from the controls: the two
    configuration selectors, the exit fix and the aircraft type. *)
Definition deriveInputs (t : Tables)
  (lgaConfig jfkConfig exitFixField acftType : string) : Inputs :=
  let exitFix := Str.toUpperCase (norm (Some exitFixField)) in
  let '(depRwy, ldgClass) := getLgaDerived t (Some lgaConfig) in
  let '(jfkAirspace, lgaAirspace) := getAirspaceFromJfkConfig t (Some jfkConfig) in
  let gateDir := getGateDirection t (Some exitFix) in
  {| DEP_RWY := Some depRwy;
     LGA_LDG_CLASS := Some ldgClass;
     LGA_AIRSPACE := Some lgaAirspace;
     JFK_AIRSPACE := Some jfkAirspace;
     EXIT_GATE_DIR := Some gateDir;
     EXIT_FIX := Some exitFix;
     ACFT_TYPE := Some acftType |}.

(** What [runTool] reports about the departure: nothing found, or the
    procedure and its climb instruction. *)
Definition runToolDeparture (t : Tables)
  (lgaConfig jfkConfig exitFixField acftType : string) : option (string * string) :=
  match pickDepartureRule t (deriveInputs t lgaConfig jfkConfig exitFixField acftType) with
  | None => None
  | Some rule => Some (norm (rule !! "OUTPUT"), climbText rule)
  end.

(** The selection rule in the specification's words: nothing when no row
    satisfies the predicates; otherwise a satisfying row such that every
    satisfying row before it in the table has a strictly greater priority
    number and every satisfying row after it has a greater or equal one. *)
Definition selectsLowestPriority (rows : list Row) (inputs : Inputs)
  (res : option Row) : Prop :=
  match res with
  | None => forall r, In r rows -> satisfies inputs r = false
  | Some r =>
      satisfies inputs r = true /\
      exists before after,
        rows = (before ++ r :: after)%list /\
        (forall r', In r' before -> satisfies inputs r' = true ->
                    Num.ltb (priority r) (priority r') = true) /\
        (forall r', In r' after -> satisfies inputs r' = true ->
                    Num.leb (priority r) (priority r') = true)
  end.

(** The end-to-end scenario of the specification: its input vector (for any
    aircraft type) and the rule row it expects to be selected. *)
Definition scenarioInputs (acftType : option string) : Inputs :=
  {| DEP_RWY := Some "4";
     LGA_LDG_CLASS := Some "A";
     LGA_AIRSPACE := Some "N+S";
     JFK_AIRSPACE := Some "NE";
     EXIT_GATE_DIR := Some "N";
     EXIT_FIX := Some "WHITE";
     ACFT_TYPE := acftType |}.

Definition isScenarioRule (r : Row) : Prop :=
  r !! "DEP_RWY" = Some "4" /\
  r !! "LGA_AIRSPACE_REQ" = Some "N" /\
  r !! "JFK_AIRSPACE_REQ" = Some "*" /\
  r !! "EXIT_GATE_DIR" = Some "N" /\
  r !! "EXIT_FIX_REQ" = Some "*" /\
  r !! "ACFT_TYPE" = Some "*" /\
  r !! "LGA_LDG_CLASS_REQ" = Some "*" /\
  r !! "OUTPUT" = Some "LGA7.MASPETH" /\
  r !! "PRIORITY" = Some "1".

Definition mkRule (dep lga jfk gate exitFix acft ldg output prio : string) : Row :=
  {[ "DEP_RWY" := dep; "LGA_AIRSPACE_REQ" := lga; "JFK_AIRSPACE_REQ" := jfk;
     "EXIT_GATE_DIR" := gate; "EXIT_FIX_REQ" := exitFix; "ACFT_TYPE" := acft;
     "LGA_LDG_CLASS_REQ" := ldg; "OUTPUT" := output; "PRIORITY" := prio ]}.

Definition scenarioRule : Row :=
  mkRule "4" "N" "*" "N" "*" "*" "*" "LGA7.MASPETH" "1".

Definition rulesOnly (rows : list Row) : Tables :=
  {| lgaConfigRows := []; jfkConfigRows := []; gatesRows := [];
     depRulesRows := rows; routesRows := [] |}.

(** Sample rule tables: a catch-all rule whose priority cell is not a
    number, and a catch-all rule with the scenario rule's priority, each
    placed before the scenario rule. *)
Definition catchAllRule (output prio : string) : Row :=
  mkRule "*" "*" "*" "*" "*" "*" "*" output prio.

Definition rowsWithTextPriority : list Row :=
  [catchAllRule "LGA7.CONEY" "TBD"; scenarioRule].

Definition rowsWithTie : list Row :=
  [catchAllRule "LGA7.CONEY" "1"; scenarioRule].

Definition rowsWithLaterTie : list Row :=
  [catchAllRule "GLDMN#" "2"; scenarioRule; catchAllRule "LGA7.CONEY" "1"].


(** ** Weather: report selection, visibility, ceiling, flight category *)

(** [s.split(c)] for a one-character separator. *)
Fixpoint splitChar (c : ascii) (acc s : string) : list string :=
  match s with
  | EmptyString => [acc]
  | String x t =>
      if Ascii.eqb c x then acc :: splitChar c "" t
      else splitChar c (acc ++ String x "") t
  end.

(** [/(\d+\s+\d+\/\d+|\d+\/\d+|\d+)\s*SM\b/] *)
Definition visibilityRe : Re.regex :=
  Re.Seq
    (Re.Group 1
       (Re.Alt (Re.Seq (Re.Plus re_d)
                  (Re.Seq (Re.Plus re_s)
                     (Re.Seq (Re.Plus re_d) (Re.Seq (Re.lit "/") (Re.Plus re_d)))))
          (Re.Alt (Re.Seq (Re.Plus re_d) (Re.Seq (Re.lit "/") (Re.Plus re_d)))
             (Re.Plus re_d))))
    (Re.Seq (Re.Star re_s) (Re.Seq (Re.word "SM") Re.WordBoundary)).

(** [/\b(BKN|OVC|VV)(\d{3})\b/g] *)
Definition ceilingRe : Re.regex :=
  Re.Seq Re.WordBoundary
    (Re.Seq (Re.Group 1 (Re.Alt (Re.word "BKN") (Re.Alt (Re.word "OVC") (Re.word "VV"))))
       (Re.Seq (Re.Group 2 (Re.Seq re_d (Re.Seq re_d re_d))) Re.WordBoundary)).

Definition zero : num := Num.Fin 0.

(** [parseVisSM(metar)].  In the mixed form the text of the group holds a
    space, so the split at white space has a second piece. *)
Definition parseVisSM (metar : string) : num :=
  match Re.exec visibilityRe metar with
  | None => Num.NaN
  | Some m =>
      let raw := Str.trim (default "" (Re.group m 1)) in
      if Str.includes raw " " then
        let parts := Re.split (Re.Plus re_s) raw in
        let whole := parts !! 0%nat in
        let frac := default "" (parts !! 1%nat) in
        let ab := List.map (fun s => Num.Number (Some s)) (splitChar "/" "" frac) in
        let a := default Num.NaN (ab !! 0%nat) in
        let b := default Num.NaN (ab !! 1%nat) in
        let w := Num.Number whole in
        if negb (Num.isFinite w) || negb (Num.isFinite a) || negb (Num.isFinite b)
           || Num.eqb b zero
        then Num.NaN
        else Num.add w (Num.div a b)
      else if Str.includes raw "/" then
        let ab := List.map (fun s => Num.Number (Some s)) (splitChar "/" "" raw) in
        let a := default Num.NaN (ab !! 0%nat) in
        let b := default Num.NaN (ab !! 1%nat) in
        if negb (Num.isFinite a) || negb (Num.isFinite b) || Num.eqb b zero
        then Num.NaN
        else Num.div a b
      else
        let n := Num.Number (Some raw) in
        if Num.isFinite n then n else Num.NaN
  end.

(** [parseCeilFt(metar)]. *)
Definition parseCeilFt (metar : string) : num :=
  let layers := Re.matchAll ceilingRe metar in
  match layers with
  | [] => Num.Inf false
  | _ =>
      fold_left (fun minFt x =>
          let h := Num.Number (Re.group x 2) in
          if Num.isFinite h then Num.min minFt (Num.mul h (Num.ofZ 100)) else minFt)
        layers (Num.Inf false)
  end.

Record Category : Type := { cat : string; cls : string }.

(** [Number.isFinite(x) && x < n]. *)
Definition finiteBelow (x : num) (n : Z) : bool :=
  Num.isFinite x && Num.ltb x (Num.ofZ n).

(** [flightCategory(metar)]. *)
Definition flightCategory (metar : option string) : Category :=
  let m := norm metar in
  if Str.isEmpty m then {| cat := "—"; cls := "" |}
  else
    let vis := parseVisSM m in
    let ceil := parseCeilFt m in
    if finiteBelow ceil 500 || finiteBelow vis 1
    then {| cat := "LIFR"; cls := "wxCatLIFR" |}
    else if finiteBelow ceil 1000 || finiteBelow vis 3
    then {| cat := "IFR"; cls := "wxCatIFR" |}
    else if finiteBelow ceil 3000 || finiteBelow vis 5
    then {| cat := "MVFR"; cls := "wxCatMVFR" |}
    else {| cat := "VFR"; cls := "wxCatVFR" |}.

(** The flight-category bands in the specification's words.  A ceiling or
    a visibility is below a bound when the report gives one and it is less
    than the bound; no ceiling is infinitely high, and no visibility is
    not a number. *)
Inductive FlightCategory : Type := LIFR | IFR | MVFR | VFR.

Definition isBelow (x : num) (bound : Z) : Prop :=
  exists k, x = Num.Fin k /\ k < bound * Num.U.

Definition inBand (ceil vis : num) (c : FlightCategory) : Prop :=
  match c with
  | LIFR => isBelow ceil 500 \/ isBelow vis 1
  | IFR => ~ (isBelow ceil 500 \/ isBelow vis 1)
           /\ (isBelow ceil 1000 \/ isBelow vis 3)
  | MVFR => ~ (isBelow ceil 1000 \/ isBelow vis 3)
            /\ (isBelow ceil 3000 \/ isBelow vis 5)
  | VFR => ~ (isBelow ceil 3000 \/ isBelow vis 5)
  end.

Definition categoryName (c : FlightCategory) : string :=
  match c with
  | LIFR => "LIFR" | IFR => "IFR" | MVFR => "MVFR" | VFR => "VFR"
  end.

(** [fetchVatsimMetar(icao)] once the response has arrived: a failed
    request throws, a successful one yields the selected line. *)
Record Response : Type := { ok : bool; status : string; body : string }.

Definition reportLines (text : string) : list string :=
  List.filter (fun l => negb (Str.isEmpty l))
    (List.map Str.trim
       (splitChar "010" "" (Re.replaceAll (Re.lit "013") "" text))).

Definition fetchVatsimMetar (icao : option string) (res : Response)
  : string + string :=
  let id := Str.toUpperCase (norm icao) in
  if negb (ok res) then inr ("METAR fetch failed (" ++ status res ++ ")")
  else
    let lines := reportLines (body res) in
    let exact := List.find (fun l => Str.startsWith (Str.toUpperCase l) (id ++ " ")) lines in
    match exact with
    | Some l => inl l
    | None =>
        match lines with
        | l :: _ => inl l
        | [] => inl (id ++ " (no METAR)")
        end
    end.

(** Sample reports: a ceiling of exactly 500 ft with good visibility, and
    a visibility of exactly 3 SM without a ceiling. *)
Definition metarCeiling500 : string :=
  "KLGA 121251Z 04005KT 10SM BKN005 OVC020 15/10 A3000".

Definition metarVisibility3 : string :=
  "KLGA 121251Z 04005KT 3SM FEW010 SCT250 15/10 A3000".

(** The shape of the claim about report selection, in the specification's
    words: the first token of a line is what stands before its first white
    space. *)
Fixpoint firstToken (l : string) : string :=
  match l with
  | EmptyString => EmptyString
  | String c t => if Str.isWhiteSpace c then EmptyString else String c (firstToken t)
  end.

(** The test that [fetchVatsimMetar] applies to a line. *)
Definition isReportOf (id l : string) : bool :=
  Str.startsWith (Str.toUpperCase l) (id ++ " ").

Definition LF : string := String "010" "".
Definition CR : string := String "013" "".

(** ** Runway configuration from the wind *)

(** [/^(IFR|LIFR|IMC)$/] *)
Definition imcRe : Re.regex :=
  Re.Seq Re.Bol
    (Re.Seq (Re.Group 1 (Re.Alt (Re.word "IFR") (Re.Alt (Re.word "LIFR") (Re.word "IMC"))))
       Re.Eol).

(** A whole-number literal of the script. *)
Definition numLit (z : Z) : num := Num.ofZ z.

(** The sectors of the light-wind band ([spd <= 14]) of LaGuardia;
    [None] when no sector holds the direction and control falls out of the
    band's block. *)
Definition lgaBand14 (dir : num) (imc : bool) : option string :=
  if Num.geb dir (numLit 315) || Num.leb dir (numLit 44)
  then Some (if imc then "Depart 4, Land LOC 31" else "Depart 4, Land RNAV GPS X 31")
  else if Num.geb dir (numLit 45) && Num.leb dir (numLit 134) then Some "Depart 13, Land ILS 4"
  else if Num.geb dir (numLit 135) && Num.leb dir (numLit 259) then Some "Depart 13, Land ILS 22"
  else if Num.geb dir (numLit 260) && Num.leb dir (numLit 314) then Some "Depart 31, Land ILS 22"
  else None.

(** The sectors of the moderate-wind band ([spd <= 27]). *)
Definition lgaBand27 (dir : num) (imc : bool) : option string :=
  if Num.geb dir (numLit 315) || Num.leb dir (numLit 44)
  then Some (if imc then "Depart 4, Land LOC 31" else "Depart 4, Land RNAV GPS X 31")
  else if Num.geb dir (numLit 45) && Num.leb dir (numLit 134) then Some "Depart 13, Land ILS 4"
  else if Num.geb dir (numLit 135) && Num.leb dir (numLit 224) then Some "Depart 13, Land ILS 22"
  else if Num.geb dir (numLit 225) && Num.leb dir (numLit 314) then Some "Depart 31, Land ILS 22"
  else None.

(** The strong-wind answers, which are also where control arrives after
    falling out of a band. *)
Definition lgaStrong (dir : num) (imc : bool) : string :=
  if Num.leb dir (numLit 89) then "Depart 4, Land ILS 4"
  else if Num.leb dir (numLit 179)
  then (if imc then "Depart 13, Land ILS 13" else "Depart 13, Land ILS 22 CIR 13")
  else if Num.leb dir (numLit 269) then "Depart 22, Land ILS 22"
  else "Depart 31, Land LOC 31".

(** [((dir % 360) + 360) % 360] *)
Definition reduce360 (dir : num) : num :=
  Num.rem (Num.add (Num.rem dir (numLit 360)) (numLit 360)) (numLit 360).

(** [lgaSuggestedConfigFromInputs(rawDir, rawSpd, rawCat)] for a direction
    text, a speed and a category text that may be absent. *)
Definition lgaSuggestedConfigFromInputs (rawDir : string) (rawSpd : num)
  (rawCat : option string) : string :=
  if Str.isEmpty rawDir || negb (Num.isFinite rawSpd) then ""
  else
    let dirStr := Str.toUpperCase rawDir in
    let spd := rawSpd in
    let imc := Re.test imcRe (Str.toUpperCase (default "" rawCat)) in
    if String.eqb dirStr "VRB" then "Depart 31, Land ILS 22"
    else
      let dir := Num.Number (Some dirStr) in
      if negb (Num.isFinite dir) then ""
      else
        let dir := reduce360 dir in
        if Num.leb spd (numLit 4) then "Depart 31, Land ILS 22"
        else
          match (if Num.leb spd (numLit 14) then lgaBand14 dir imc else None) with
          | Some config => config
          | None =>
              match (if Num.leb spd (numLit 27) then lgaBand27 dir imc else None) with
              | Some config => config
              | None => lgaStrong dir imc
              end
          end.

(** [jfkSuggestedConfigFromInputs(rawDir, rawSpd)]. *)
Definition jfkSuggestedConfigFromInputs (rawDir : string) (rawSpd : num) : string :=
  if Str.isEmpty rawDir || negb (Num.isFinite rawSpd) then ""
  else
    let dirStr := Str.toUpperCase rawDir in
    let spd := rawSpd in
    if String.eqb dirStr "VRB" || Num.leb spd (numLit 4) then "Depart 31L/R, Land 31L/R"
    else
      let dir := Num.Number (Some dirStr) in
      if negb (Num.isFinite dir) then ""
      else
        let dir := reduce360 dir in
        if Num.leb dir (numLit 99) then "Depart 04L, Land 04L/R"
        else if Num.leb dir (numLit 159) then "Depart 13L/R, Land 13L + 22L"
        else if Num.leb dir (numLit 259) then "Depart 22R, Land 22L/R"
        else "Depart 31L/R, Land 31L/R".

(** A whole number of degrees. *)
Definition degrees (d : Z) : num := Num.Fin (d * Num.U).

(** ** Reference index: frequency display and the navaid maps *)

(** [freqDisplayFromFrequencyKhz(raw)]. *)
Definition freqDisplayFromFrequencyKhz (raw : option string) : string :=
  let s := norm raw in
  if Str.isEmpty s then "(unknown)"
  else
    let n := Num.Number (Some s) in
    if negb (Num.isFinite n) then s
    else if Num.geb n (Num.ofZ 100000)
    then Num.toFixed2 (Num.div n (Num.ofZ 1000)) ++ " MHz"
    else Num.toString n ++ " kHz".



(** What the script takes from its host: the [Math] functions that the
    great-circle distance uses, and the locale's string comparison.  The
    first are floating-point approximations of transcendental functions and
    the second depends on the locale, so neither is computed here. *)
Record Host : Type := {
  Math_sin : num -> num;
  Math_cos : num -> num;
  Math_sqrt : num -> num;
  Math_atan2 : num -> num -> num;
  Math_pow : num -> num -> num;
  localeCompare : string -> string -> num
}.

Definition Math_PI : num := Num.ofString "3.141592653589793".
Definition KLGA_LAT : num := Num.ofString "40.7772".
Definition KLGA_LON : num := Num.neg (Num.ofString "73.8726").

(** [toNumberOrNaN(v)]. *)
Definition toNumberOrNaN (v : option string) : num :=
  let n := Num.Number (Some (norm v)) in
  if Num.isFinite n then n else Num.NaN.

(** [haversineNM(lat1, lon1, lat2, lon2)]. *)
Definition haversineNM (host : Host) (lat1 lon1 lat2 lon2 : num) : num :=
  let R := Num.ofString "3440.065" in
  let toRad := fun deg => Num.div (Num.mul deg Math_PI) (Num.ofZ 180) in
  let dLat := toRad (Num.sub lat2 lat1) in
  let dLon := toRad (Num.sub lon2 lon1) in
  let two := Num.ofZ 2 in
  let a :=
    Num.add
      (Math_pow host (Math_sin host (Num.div dLat two)) two)
      (Num.mul
         (Num.mul (Math_cos host (toRad lat1)) (Math_cos host (toRad lat2)))
         (Math_pow host (Math_sin host (Num.div dLon two)) two)) in
  let c :=
    Num.mul two
      (Math_atan2 host (Math_sqrt host a)
         (Math_sqrt host (Num.sub (Num.ofZ 1) a))) in
  Num.mul R c.

Record Navaid : Type := {
  KIND : string;
  IDENT : string;
  NAME : string;
  TYPE : string;
  FREQ_RAW : string;
  FREQ_DISPLAY : string;
  LAT : num;
  LON : num;
  DIST_NM : num
}.

(** An entry of the flat search list: the record and its search key. *)
Record SearchEntry : Type := { entry : Navaid; key : string }.

Record NavaidMaps : Type := {
  navaidByIdent : gmap string (list Navaid);
  navaidSearchIndex : list SearchEntry
}.

(** The record that [buildNavaidMaps] makes of a row whose identifier is
    [ident]. *)
Definition navaidOf (host : Host) (ident : string) (r : Row) : Navaid :=
  let lat := toNumberOrNaN (r !! "latitude_deg") in
  let lon := toNumberOrNaN (r !! "longitude_deg") in
  let hasPos := Num.isFinite lat && Num.isFinite lon in
  let dist := if hasPos then haversineNM host KLGA_LAT KLGA_LON lat lon
              else Num.Inf false in
  {| KIND := "NAVAID";
     IDENT := ident;
     NAME := norm (r !! "name");
     TYPE := Str.toUpperCase (norm (r !! "type"));
     FREQ_RAW := norm (r !! "frequency_khz");
     FREQ_DISPLAY := freqDisplayFromFrequencyKhz (r !! "frequency_khz");
     LAT := lat;
     LON := lon;
     DIST_NM := dist |}.

(** One turn of the loop over the rows. *)
Definition addNavaid (host : Host) (st : NavaidMaps) (r : Row) : NavaidMaps :=
  let ident := Str.toUpperCase (norm (r !! "ident")) in
  if Str.isEmpty ident then st
  else
    let obj := navaidOf host ident r in
    let group := default [] (navaidByIdent st !! ident) in
    let k := Str.toUpperCase (IDENT obj ++ " " ++ NAME obj ++ " " ++ TYPE obj) in
    {| navaidByIdent := <[ident := (group ++ [obj])%list]> (navaidByIdent st);
       navaidSearchIndex :=
         (navaidSearchIndex st ++ [{| entry := obj; key := k |}])%list |}.

(** [a || b] on numbers. *)
Definition orElse (a b : num) : num := if Num.truthy a then a else b.

(** The two comparators: distance, then name; distance, then identifier. *)
Definition byDistanceThenName (host : Host) (a b : Navaid) : num :=
  orElse (Num.sub (DIST_NM a) (DIST_NM b)) (localeCompare host (NAME a) (NAME b)).

Definition byDistanceThenIdent (host : Host) (a b : SearchEntry) : num :=
  orElse (Num.sub (DIST_NM (entry a)) (DIST_NM (entry b)))
         (localeCompare host (IDENT (entry a)) (IDENT (entry b))).

(** [buildNavaidMaps(rows)]: the two module-level indices after the call. *)
Definition buildNavaidMaps (host : Host) (rows : list Row) : NavaidMaps :=
  let st := fold_left (addNavaid host) rows
              {| navaidByIdent := ∅; navaidSearchIndex := [] |} in
  {| navaidByIdent := sort (byDistanceThenName host) <$> navaidByIdent st;
     navaidSearchIndex := sort (byDistanceThenIdent host) (navaidSearchIndex st) |}.




(** A host for examples: comparison by character codes, and a stand-in for
    the distance that is zero everywhere. *)
Fixpoint compareCodes (a b : string) : comparison :=
  match a, b with
  | EmptyString, EmptyString => Eq
  | EmptyString, String _ _ => Lt
  | String _ _, EmptyString => Gt
  | String x a', String y b' =>
      match N.compare (Str.code x) (Str.code y) with
      | Eq => compareCodes a' b'
      | c => c
      end
  end.

Definition numOfComparison (c : comparison) : num :=
  match c with
  | Lt => Num.Fin (- Num.U)
  | Eq => Num.Fin 0
  | Gt => Num.Fin Num.U
  end.

Definition sampleHost : Host :=
  {| Math_sin := fun _ => Num.Fin 0;
     Math_cos := fun _ => Num.Fin 0;
     Math_sqrt := fun _ => Num.Fin 0;
     Math_atan2 := fun _ _ => Num.Fin 0;
     Math_pow := fun _ _ => Num.Fin 0;
     localeCompare := fun a b => numOfComparison (compareCodes a b) |}.

Definition navaidRow (ident name lat lon : string) : Row :=
  {[ "ident" := ident; "name" := name; "type" := "VOR";
     "frequency_khz" := "113100"; "latitude_deg" := lat; "longitude_deg" := lon ]}.


(** ** Tables from text, escaping, routes, search and watch lists *)

Definition TAB : ascii := "009"%char.
Definition quoteChar : ascii := "034"%char.

(** [s.replaceAll(c, by)] for a one-character pattern. *)
Fixpoint replaceAllChar (c : ascii) (by_ : string) (s : string) : string :=
  match s with
  | EmptyString => EmptyString
  | String x t =>
      if Ascii.eqb x c then by_ ++ replaceAllChar c by_ t
      else String x (replaceAllChar c by_ t)
  end.

(** [escHtml(s)]: five replacements, one after the other. *)
Definition escHtml (s : option string) : string :=
  replaceAllChar "'" "&#039;"
    (replaceAllChar quoteChar "&quot;"
       (replaceAllChar ">" "&gt;"
          (replaceAllChar "<" "&lt;"
             (replaceAllChar "&" "&amp;" (default "" s))))).

(** The entity that stands for one character, and a text escaped one
    character at a time. *)
Definition escapeChar (c : ascii) : string :=
  if Ascii.eqb c "&" then "&amp;"
  else if Ascii.eqb c "<" then "&lt;"
  else if Ascii.eqb c ">" then "&gt;"
  else if Ascii.eqb c quoteChar then "&quot;"
  else if Ascii.eqb c "'" then "&#039;"
  else String c "".

Fixpoint escapeEach (s : string) : string :=
  match s with
  | EmptyString => EmptyString
  | String c t => escapeChar c ++ escapeEach t
  end.

(** The characters that open or close markup or an attribute value. *)
Definition isMarkupChar (c : ascii) : bool :=
  Ascii.eqb c "<" || Ascii.eqb c ">" || Ascii.eqb c quoteChar || Ascii.eqb c "'".

(** The inverse reading: an entity back to its character. *)
Fixpoint unescape (fuel : nat) (s : string) : string :=
  match fuel with
  | O => s
  | S fuel' =>
      match s with
      | EmptyString => EmptyString
      | String c t =>
          if Ascii.eqb c "&" then
            if Str.startsWith t "amp;" then String "&" (unescape fuel' (Num.dropS 4 t))
            else if Str.startsWith t "lt;" then String "<" (unescape fuel' (Num.dropS 3 t))
            else if Str.startsWith t "gt;" then String ">" (unescape fuel' (Num.dropS 3 t))
            else if Str.startsWith t "quot;"
            then String quoteChar (unescape fuel' (Num.dropS 5 t))
            else if Str.startsWith t "#039;" then String "'" (unescape fuel' (Num.dropS 5 t))
            else String c (unescape fuel' t)
          else String c (unescape fuel' t)
      end
  end.

(** *** [parseTSV] *)

(** The non-blank lines of the text, without carriage returns and without
    white space at their ends. *)
Definition tsvLines (tsvText : string) : list string :=
  List.filter (fun l => negb (Str.isEmpty (Str.trim l)))
    (List.map Str.trimEnd
       (splitChar "010" "" (Re.replaceAll (Re.lit "013") "" tsvText))).

Definition tsvHeaders (line : string) : list string :=
  List.map Str.trim (splitChar TAB "" line).

(** [obj[h] = v] on an object made by [{}].  Every key makes or replaces
    a property of the object, except [__proto__]: that key reaches the
    setter that the object inherits, which ignores a text. *)
Definition setCell (obj : Row) (h v : string) : Row :=
  if String.eqb h "__proto__" then obj else <[h := v]> obj.

(** [headers.forEach((h, i) => obj[h] = (cols[i] ?? "").trim())], from
    index [i] on. *)
Fixpoint forEachHeader (cols : list string) (i : nat) (headers : list string)
  (obj : Row) : Row :=
  match headers with
  | [] => obj
  | h :: hs =>
      forEachHeader cols (S i) hs (setCell obj h (Str.trim (default "" (cols !! i))))
  end.

Definition tsvRecord (headers : list string) (line : string) : Row :=
  forEachHeader (splitChar TAB "" line) 0 headers ∅.

(** [parseTSV(tsvText)]. *)
Definition parseTSV (tsvText : string) : list Row :=
  match tsvLines tsvText with
  | [] => []
  | first :: others => List.map (tsvRecord (tsvHeaders first)) others
  end.

(** *** Routes *)


(** *** Airports *)

Module Airport.
Record t : Type := { KIND : string; IDENT : string; NAME : string }.
End Airport.

Record AirportEntry : Type := { airport : Airport.t; airportKey : string }.

Record AirportMaps : Type := {
  airportByIdent : gmap string Airport.t;
  airportSearchIndex : list AirportEntry
}.

Definition airportOf (ident : string) (r : Row) : Airport.t :=
  {| Airport.KIND := "AIRPORT"; Airport.IDENT := ident;
     Airport.NAME := norm (r !! "name") |}.

(** One turn of the loop of [buildAirportMaps]. *)
Definition addAirport (st : AirportMaps) (r : Row) : AirportMaps :=
  let ident := Str.toUpperCase (norm (r !! "ident")) in
  if Str.isEmpty ident then st
  else
    let obj := airportOf ident r in
    let k := Str.toUpperCase
               (Airport.IDENT obj ++ " " ++ Airport.NAME obj ++ " AIRPORT APT HELIPORT") in
    {| airportByIdent :=
         match airportByIdent st !! ident with
         | Some _ => airportByIdent st
         | None => <[ident := obj]> (airportByIdent st)
         end;
       airportSearchIndex :=
         (airportSearchIndex st ++ [{| airport := obj; airportKey := k |}])%list |}.

Definition byIdent (host : Host) (a b : AirportEntry) : num :=
  localeCompare host (Airport.IDENT (airport a)) (Airport.IDENT (airport b)).

(** [buildAirportMaps(rows)]: the two module-level indices after the call. *)
Definition buildAirportMaps (host : Host) (rows : list Row) : AirportMaps :=
  let st := fold_left addAirport rows
              {| airportByIdent := ∅; airportSearchIndex := [] |} in
  {| airportByIdent := airportByIdent st;
     airportSearchIndex := sort (byIdent host) (airportSearchIndex st) |}.

(** *** The unified search *)

(** One of the two loops of [renderUnifiedSearch]: the entries of an index
    whose key holds the query are added to the hits, and the loop is left
    as soon as there are fifty. *)
Fixpoint collectHits {A B : Type} (inj : A -> B) (keyOf : A -> string)
  (query : string) (index : list A) (hits : list B) : list B :=
  match index with
  | [] => hits
  | v :: index' =>
      if Str.includes (keyOf v) query then
        let hits' := (hits ++ [inj v])%list in
        if (50 <=? length hits')%nat then hits'
        else collectHits inj keyOf query index' hits'
      else collectHits inj keyOf query index' hits
  end.

(** The hits that [renderUnifiedSearch(q)] lists; [None] when the query is
    blank and the list is cleared. *)
Definition searchHits (m : NavaidMaps) (a : AirportMaps) (q : option string)
  : option (list (SearchEntry + AirportEntry)) :=
  let query := Str.toUpperCase (norm q) in
  if Str.isEmpty query then None
  else
    let hits := collectHits inl key query (navaidSearchIndex m) [] in
    Some (if (length hits <? 50)%nat
          then collectHits inr airportKey query (airportSearchIndex a) hits
          else hits).

(** *** Selecting one of the navaids of an identifier *)

(** [Math.max(x, y)]. *)
Definition Math_max (x y : num) : num :=
  match x, y with
  | Num.NaN, _ | _, Num.NaN => Num.NaN
  | _, _ => if Num.ltb x y then y else x
  end.

(** [Math.max(0, Math.min(Number(idx) || 0, list.length - 1))], for the
    number [idx] that [Number(idx)] is. *)
Definition safeIdx (idx : num) (len : nat) : num :=
  Math_max (Num.ofZ 0)
    (Num.min (orElse idx (Num.ofZ 0)) (Num.ofZ (Z.of_nat len - 1))).

(** [list[i]] for a number [i]: an element when [i] is a whole number
    within the list, [undefined] otherwise. *)
Definition elementAt {A : Type} (l : list A) (i : num) : option A :=
  match i with
  | Num.Fin k =>
      if (0 <=? k) && (k mod Num.U =? 0) then l !! Z.to_nat (k / Num.U) else None
  | _ => None
  end.

(** The record whose details [selectNavaid(ident, idx)] shows; [None]
    when it shows none. *)
Definition selectNavaid (m : NavaidMaps) (ident : option string) (idx : num)
  : option Navaid :=
  let k := Str.toUpperCase (norm ident) in
  match navaidByIdent m !! k with
  | None | Some [] => None
  | Some list => elementAt list (safeIdx idx (length list))
  end.

(** *** Watch lists *)

Definition optional (r : Re.regex) : Re.regex := Re.Alt r Re.Eps.

Definition isIcaoChar (c : ascii) : bool := Str.isUpper c || Str.isDigit c.

(** [/^[A-Z0-9]{3,5}$/] *)
Definition icaoRe : Re.regex :=
  let c := Re.Chr isIcaoChar in
  Re.Seq Re.Bol
    (Re.Seq c (Re.Seq c (Re.Seq c
       (Re.Seq (optional (Re.Seq c (optional c))) Re.Eol)))).

(** [isLikelyIcao(s)]. *)
Definition isLikelyIcao (s : option string) : bool :=
  let v := Str.toUpperCase (norm s) in
  Re.test icaoRe v.

(** [raw ? JSON.parse(raw) : []] and what follows it in the two loaders:
    [stored] is the array of texts (an entry may be [null]) found in the
    browser's storage, and [None] when there is none or it is no array. *)
Definition loadWatchlist (defaults : list string)
  (stored : option (list (option string))) : list string :=
  let watchlist :=
    match stored with
    | Some arr =>
        List.filter (fun x => negb (Str.isEmpty x))
          (List.map (fun x => Str.toUpperCase (norm x)) arr)
    | None => []
    end in
  match watchlist with
  | [] => defaults
  | _ => watchlist
  end.

Definition loadWxWatchlist : option (list (option string)) -> list string :=
  loadWatchlist ["KLGA"; "KJFK"; "KEWR"; "KTEB"].

Definition loadRvrWatchlist : option (list (option string)) -> list string :=
  loadWatchlist ["LGA"; "JFK"; "EWR"].

(** The click on an add button: the watch list after it, for the text of
    the input field and the list before it.  [limit] is 20 for the weather
    panel and 15 for the runway visual range panel. *)
Definition addToWatchlist (limit : nat) (input : option string)
  (watchlist : list string) : list string :=
  let v := Str.toUpperCase (norm input) in
  if negb (isLikelyIcao (Some v)) then watchlist
  else if negb (existsb (String.eqb v) watchlist)
  then firstn limit (v :: watchlist)
  else watchlist.

Definition wxAdd : option string -> list string -> list string := addToWatchlist 20.
Definition rvrAdd : option string -> list string -> list string := addToWatchlist 15.

(** The click on the X of a chip. *)
Definition removeFromWatchlist (icao : string) (watchlist : list string) : list string :=
  List.filter (fun x => negb (String.eqb x icao)) watchlist.

(** *** The wind of a report and the runway helper *)

(** [/\b(\d{3}|VRB)(\d{2,3})(?:G(\d{2,3}))?KT\b/] *)
Definition windRe : Re.regex :=
  Re.Seq Re.WordBoundary
    (Re.Seq (Re.Group 1 (Re.Alt (Re.Seq re_d (Re.Seq re_d re_d)) (Re.word "VRB")))
       (Re.Seq (Re.Group 2 (Re.Seq re_d (Re.Seq re_d (optional re_d))))
          (Re.Seq
             (optional
                (Re.Seq (Re.lit "G")
                   (Re.Group 3 (Re.Seq re_d (Re.Seq re_d (optional re_d))))))
             (Re.Seq (Re.word "KT") Re.WordBoundary)))).

Module Wind.
Record t : Type := { dir : string; spd : num; raw : string }.
End Wind.

(** [parseWindFromMetar(metar)]. *)
Definition parseWindFromMetar (metar : option string) : Wind.t :=
  let m := Str.toUpperCase (norm metar) in
  match Re.exec windRe m with
  | None => {| Wind.dir := ""; Wind.spd := Num.NaN; Wind.raw := "" |}
  | Some w =>
      {| Wind.dir := default "" (Re.group w 1);
         Wind.spd := Num.Number (Re.group w 2);
         Wind.raw := Re.matched w |}
  end.

(** [x || "—"] on texts. *)
Definition orDash (x : string) : string := if Str.isEmpty x then "—" else x.

(** The configuration that [renderRunwayHelperBlock(icao, metar)] prints
    after SUGGESTED AIRPORT CONFIGURATION. *)
Definition runwayHelperConfig (icao metar : option string) : string :=
  let id := Str.toUpperCase (norm icao) in
  let m := norm metar in
  let c := cat (flightCategory (Some m)) in
  let wind := parseWindFromMetar (Some m) in
  let config := "—" in
  let config :=
    if String.eqb id "KLGA"
    then orDash (lgaSuggestedConfigFromInputs (Wind.dir wind) (Wind.spd wind) (Some c))
    else config in
  let config :=
    if String.eqb id "KJFK"
    then orDash (jfkSuggestedConfigFromInputs (Wind.dir wind) (Wind.spd wind))
    else config in
  config.

(** The category that [renderMetarLineHtml(icao, metar)] prints. *)
Definition renderedCategory (metar : option string) : string :=
  cat (flightCategory (Some (norm metar))).

(** The report that a worker of [refreshWx] records for a station: the
    one fetched, or a placeholder when the request failed. *)
Definition wxReport (icao : string) (res : Response) : string :=
  match fetchVatsimMetar (Some icao) res with
  | inl metar => metar
  | inr _ => icao ++ " (error)"
  end.

(** A navaid record and a map for examples. *)
Definition sampleNavaid (name : string) : Navaid :=
  {| KIND := "NAVAID"; IDENT := "ABC"; NAME := name; TYPE := "VOR";
     FREQ_RAW := "113100"; FREQ_DISPLAY := "113.10 MHz";
     LAT := Num.NaN; LON := Num.NaN; DIST_NM := Num.Inf false |}.

Definition sampleNavaidMaps : NavaidMaps :=
  {| navaidByIdent :=
       {[ "ABC" := [sampleNavaid "Alpha"; sampleNavaid "Mike"; sampleNavaid "Zulu"] ]};
     navaidSearchIndex := [] |}.
(** ** Auxiliary functions of the proofs *)

Fixpoint star_chr (p : ascii -> bool) (k : Re.mstate -> option Re.mstate)
  (pv : option ascii) (s : string) (cs : list (nat * string)) : option Re.mstate :=
  match s with
  | String c t =>
      if p c then
        match star_chr p k (Some c) t cs with
        | Some e => Some e
        | None => k (Re.MState pv s cs)
        end
      else k (Re.MState pv s cs)
  | EmptyString => k (Re.MState pv "" cs)
  end.

(** The character before the position reached after skipping a run of
    [p]-characters. *)
Fixpoint prevAfter (p : ascii -> bool) (pv : option ascii) (s : string) : option ascii :=
  match s with
  | String c t => if p c then prevAfter p (Some c) t else pv
  | EmptyString => pv
  end.

Fixpoint dropWhile (p : ascii -> bool) (s : string) : string :=
  match s with
  | String c t => if p c then dropWhile p t else s
  | EmptyString => EmptyString
  end.

(** What the separator expression does at one position: skip white space,
    read one of [+], [,], [&], skip white space. *)
Definition sep_at (s : string) : option string :=
  match Str.trimStart s with
  | String c t => if isSeparatorChar c then Some (Str.trimStart t) else None
  | EmptyString => None
  end.

Definition prepend (acc : string) (l : list string) : list string :=
  match l with
  | f :: o => (acc ++ f) :: o
  | [] => []
  end.

Definition isSeparatorOrSpace (c : ascii) : bool :=
  isSeparatorChar c || Str.isWhiteSpace c.

(** ** Notions used to state the properties of the indices *)

(** The identifier of a row of the navaid or airport table. *)
Definition identOf (r : Row) : string := Str.toUpperCase (norm (r !! "ident")).

(** The rows that have an identifier, and those that have a given one, in
    the order of the table. *)
Definition identified (rows : list Row) : list Row :=
  List.filter (fun r => negb (Str.isEmpty (identOf r))) rows.

Definition rowsOf (ident : string) (rows : list Row) : list Row :=
  if Str.isEmpty ident then []
  else List.filter (fun r => String.eqb (identOf r) ident) rows.

Definition searchEntryOf (host : Host) (r : Row) : SearchEntry :=
  let obj := navaidOf host (identOf r) r in
  {| entry := obj;
     key := Str.toUpperCase (IDENT obj ++ " " ++ NAME obj ++ " " ++ TYPE obj) |}.

Definition airportEntryOf (r : Row) : AirportEntry :=
  let obj := airportOf (identOf r) r in
  {| airport := obj;
     airportKey :=
       Str.toUpperCase
         (Airport.IDENT obj ++ " " ++ Airport.NAME obj ++ " AIRPORT APT HELIPORT") |}.


(** What the two loaders establish of every entry: it is not empty and is
    its own trimmed upper-case form. *)
Definition isNormalised (x : string) : Prop :=
  x <> "" /\ Str.toUpperCase (norm (Some x)) = x.

(** A text with every run of white space replaced by one dot; [inRun]
    tells that the character before was white space. *)
Fixpoint dotRuns (inRun : bool) (s : string) : string :=
  match s with
  | EmptyString => EmptyString
  | String c t =>
      if Str.isWhiteSpace c
      then (if inRun then dotRuns true t else String "." (dotRuns true t))
      else String c (dotRuns false t)
  end.

(** The procedure names that stand for a climb via the SID. *)
Definition climbViaSidNames : list string :=
  ["LGA7.MASPETH"; "LGA7.CONEY"; "HOPEA"; "JUTES"; "TNNIS"; "NTHNS"; "GLDMN"].

(** What a successful run of an expression does to the position, told
    without the order in which the matcher tries the alternatives: the
    relation between the position before and a position after. *)
Fixpoint steps (r : Re.regex) (st st' : Re.mstate) : Prop :=
  match r with
  | Re.Eps => st' = st
  | Re.Chr p =>
      exists c t, Re.rest st = String c t /\ p c = true
                  /\ st' = Re.MState (Some c) t (Re.caps st)
  | Re.Seq a b => exists mid, steps a st mid /\ steps b mid st'
  | Re.Alt a b => steps a st st' \/ steps b st st'
  | Re.Star a => rtc (steps a) st st'
  | Re.Group n a =>
      exists st1, steps a st st1
        /\ st' = Re.MState (Re.prev st1) (Re.rest st1)
                   ((n, Re.consumed (Re.rest st) (Re.rest st1)) :: Re.caps st1)
  | Re.WordBoundary =>
      xorb (Re.isWordOpt (Re.prev st)) (Re.isWordOpt (Re.next (Re.rest st))) = true
      /\ st' = st
  | Re.Bol => Re.prev st = None /\ st' = st
  | Re.Eol => Re.rest st = "" /\ st' = st
  end.

(** The text of a wind direction or speed: two or three digits. *)
Definition isDigits (lo hi : nat) (x : string) : Prop :=
  (lo <= String.length x <= hi)%nat /\ Str.allChars Str.isDigit x = true.



(** * Properties *)


(** ** Character and string facts *)







(** ** The matcher on a starred character class *)


Lemma run_star_chr p st k :
  Re.run (Re.Star (Re.Chr p)) st k = star_chr p k (Re.prev st) (Re.rest st) (Re.caps st).
Proof.
  cbn [Re.run].
  generalize (Nat.le_refl (String.length (Re.rest st))).
  generalize (String.length (Re.rest st)) at 2 3 as n.
  intros n. revert st. induction n as [|n IH]; intros [pv s cs] Hn; cbn [Re.rest Re.prev Re.caps] in *.
  - destruct s; [reflexivity|simpl in Hn; lia].
  - destruct s as [|c t]; [reflexivity|]. cbn [star_chr].
    destruct (p c) eqn:Ep; [|reflexivity].
    cbn [Re.rest Re.caps]. simpl String.length.
    replace (String.length t <? S (String.length t))%nat with true
      by (symmetry; apply Nat.ltb_lt; lia).
    rewrite IH by (simpl in Hn; cbn; lia). reflexivity.
Qed.



Lemma trimStart_dropWhile s : Str.trimStart s = dropWhile Str.isWhiteSpace s.
Proof. induction s as [|c t IH]; simpl; [reflexivity|]. now rewrite IH. Qed.

(** A greedy run followed by something that always succeeds takes the
    whole run. *)
Lemma star_chr_total p k pv s cs :
  (forall st, is_Some (k st)) ->
  star_chr p k pv s cs = k (Re.MState (prevAfter p pv s) (dropWhile p s) cs).
Proof.
  intros Hk. revert pv. induction s as [|c t IH]; intros pv; simpl; [reflexivity|].
  destruct (p c) eqn:Ep; [|reflexivity].
  rewrite IH. destruct (Hk (Re.MState (prevAfter p (Some c) t) (dropWhile p t) cs)) as [e ->].
  reflexivity.
Qed.

(** A greedy run followed by something that cannot start with a character
    of the run: giving characters back never helps. *)
Lemma star_chr_then p k pv s cs :
  (forall pv' c t cs', p c = true -> k (Re.MState pv' (String c t) cs') = None) ->
  star_chr p k pv s cs = k (Re.MState (prevAfter p pv s) (dropWhile p s) cs).
Proof.
  intros Hk. revert pv. induction s as [|c t IH]; intros pv; simpl; [reflexivity|].
  destruct (p c) eqn:Ep; [|reflexivity].
  rewrite IH.
  destruct (k (Re.MState (prevAfter p (Some c) t) (dropWhile p t) cs)) eqn:E; [reflexivity|].
  now apply Hk.
Qed.


Lemma run_Seq a b st k :
  Re.run (Re.Seq a b) st k = Re.run a st (fun st' => Re.run b st' k).
Proof. reflexivity. Qed.

Lemma run_Alt a b st k :
  Re.run (Re.Alt a b) st k =
  match Re.run a st k with Some e => Some e | None => Re.run b st k end.
Proof. reflexivity. Qed.

Lemma run_lit d st k :
  Re.run (Re.lit d) st k =
  match Re.rest st with
  | String c t => if Ascii.eqb d c then k (Re.MState (Some c) t (Re.caps st)) else None
  | EmptyString => None
  end.
Proof. reflexivity. Qed.

Lemma run_one_sep d pv s :
  Str.isWhiteSpace d = false ->
  Re.rest <$> Re.run (Re.Seq (Re.Star re_s) (Re.Seq (Re.lit d) (Re.Star re_s)))
              (Re.MState pv s []) Some
  = match Str.trimStart s with
    | String c t => if Ascii.eqb d c then Some (Str.trimStart t) else None
    | EmptyString => None
    end.
Proof.
  intros Hd. rewrite run_Seq. unfold re_s. rewrite run_star_chr.
  cbn [Re.prev Re.rest Re.caps].
  rewrite star_chr_then.
  - rewrite trimStart_dropWhile.
    destruct (dropWhile Str.isWhiteSpace s) as [|c t] eqn:Es.
    + rewrite run_Seq, run_lit. reflexivity.
    + rewrite run_Seq, run_lit. cbn [Re.rest Re.caps].
      destruct (Ascii.eqb d c); [|reflexivity].
      rewrite run_star_chr. cbn [Re.prev Re.rest Re.caps].
      rewrite star_chr_total by (intros; eexists; reflexivity).
      simpl. now rewrite trimStart_dropWhile.
  - intros pv' c t cs' Hc. rewrite run_Seq, run_lit. cbn [Re.rest].
    destruct (Ascii.eqb_spec d c) as [->|]; [congruence|reflexivity].
Qed.

Lemma sticky_sep pv s :
  Re.rest <$> Re.sticky airspaceSeparator pv s = sep_at s.
Proof.
  unfold Re.sticky, airspaceSeparator, sep_at.
  pose proof (run_one_sep "+" pv s eq_refl) as H1.
  pose proof (run_one_sep "," pv s eq_refl) as H2.
  pose proof (run_one_sep "&" pv s eq_refl) as H3.
  rewrite !run_Alt. unfold isSeparatorChar.
  destruct (Re.run (Re.Seq (Re.Star re_s) (Re.Seq (Re.lit "+") (Re.Star re_s))) _ _) as [e1|].
  - rewrite H1. destruct (Str.trimStart s) as [|c t]; [reflexivity|].
    destruct (Ascii.eqb "+" c); [reflexivity|discriminate].
  - destruct (Re.run (Re.Seq (Re.Star re_s) (Re.Seq (Re.lit ",") (Re.Star re_s))) _ _) as [e2|].
    + rewrite H2. destruct (Str.trimStart s) as [|c t]; [reflexivity|].
      destruct (Ascii.eqb "+" c); [discriminate|].
      destruct (Ascii.eqb "," c); [reflexivity|discriminate].
    + rewrite H3. destruct (Str.trimStart s) as [|c t]; [reflexivity|].
      destruct (Ascii.eqb "+" c); [discriminate|].
      destruct (Ascii.eqb "," c); [discriminate|]. reflexivity.
Qed.

(** ** Strings: append, trimming, substrings *)

Lemma sapp_nil_r (s : string) : s ++ "" = s.
Proof. induction s; simpl; congruence. Qed.

Lemma sapp_assoc (a b c : string) : (a ++ b) ++ c = a ++ (b ++ c).
Proof. induction a; simpl; congruence. Qed.

Lemma slength_app a b : String.length (a ++ b) = (String.length a + String.length b)%nat.
Proof. induction a; simpl; congruence. Qed.

Lemma trimStart_split s :
  exists w, s = w ++ Str.trimStart s /\ Str.allChars Str.isWhiteSpace w = true.
Proof.
  induction s as [|c t (w & Hw & Hall)]; simpl.
  - now exists "".
  - destruct (Str.isWhiteSpace c) eqn:E.
    + exists (String c w). simpl. rewrite E, Hall. split; [congruence|reflexivity].
    + now exists "".
Qed.

Lemma trimStart_length s : (String.length (Str.trimStart s) <= String.length s)%nat.
Proof.
  destruct (trimStart_split s) as (w & Hw & _).
  rewrite Hw at 2. rewrite slength_app. lia.
Qed.

Lemma trimStart_app_ws w x :
  Str.allChars Str.isWhiteSpace w = true -> Str.trimStart (w ++ x) = Str.trimStart x.
Proof.
  induction w as [|c w IH]; simpl; [reflexivity|].
  intros [Hc Hw]%andb_prop. rewrite Hc. auto.
Qed.

Lemma trimStart_ws w :
  Str.allChars Str.isWhiteSpace w = true -> Str.trimStart w = "".
Proof.
  intros H. rewrite <- (sapp_nil_r w). now rewrite trimStart_app_ws.
Qed.

Lemma trimEnd_ws w :
  Str.allChars Str.isWhiteSpace w = true -> Str.trimEnd w = "".
Proof.
  induction w as [|c w IH]; simpl; [reflexivity|].
  intros [Hc Hw]%andb_prop. now rewrite IH, Hc.
Qed.

Lemma trimEnd_app_ws x w :
  Str.allChars Str.isWhiteSpace w = true -> Str.trimEnd (x ++ w) = Str.trimEnd x.
Proof.
  intros Hw. induction x as [|c x IH]; simpl.
  - now apply trimEnd_ws.
  - now rewrite IH.
Qed.

Lemma trim_app_ws_l w x :
  Str.allChars Str.isWhiteSpace w = true -> Str.trim (w ++ x) = Str.trim x.
Proof. intros H. unfold Str.trim. now rewrite trimStart_app_ws. Qed.

Lemma trim_app_ws_r a w :
  Str.allChars Str.isWhiteSpace w = true -> Str.trim (a ++ w) = Str.trim a.
Proof.
  intros Hw. unfold Str.trim. induction a as [|c a IH]; simpl.
  - now rewrite trimStart_ws.
  - destruct (Str.isWhiteSpace c); [exact IH|].
    change (String c (a ++ w)) with (String c a ++ w). now apply trimEnd_app_ws.
Qed.

Lemma startsWith_spec s p : Str.startsWith s p = true <-> exists b, s = p ++ b.
Proof.
  revert s. induction p as [|a p IH]; intros s; simpl.
  - split; [intros _; now exists s | reflexivity].
  - destruct s as [|b s].
    + split; [discriminate | intros [x Hx]; discriminate].
    + rewrite andb_true_iff, IH. split.
      * intros [->%Ascii.eqb_eq [x ->]]. now exists x.
      * intros [x Hx]. injection Hx as -> ->. split; [apply Ascii.eqb_refl | now exists x].
Qed.

Lemma includes_spec s p : Str.includes s p = true <-> isSubstring p s.
Proof.
  unfold isSubstring. induction s as [|c s IH]; simpl.
  - rewrite orb_false_r, startsWith_spec. split.
    + intros [b Hb]. now exists "", b.
    + intros (a & b & H). destruct a; [now exists b | discriminate].
  - rewrite orb_true_iff, startsWith_spec, IH. split.
    + intros [[b Hb] | (a & b & ->)].
      * now exists "", b.
      * now exists (String c a), b.
    + intros (a & b & H). destruct a as [|x a].
      * left. now exists b.
      * right. injection H as -> ->. now exists a, b.
Qed.

Lemma includes_empty s : Str.includes s "" = true.
Proof. destruct s; reflexivity. Qed.

(** ** The separator expression against the specification's cut *)

Lemma ws_not_separator c : Str.isWhiteSpace c = true -> isSeparatorChar c = false.
Proof. destruct c as [[] [] [] [] [] [] [] []]; try reflexivity; discriminate. Qed.

Lemma allChars_ws_not_separator w :
  Str.allChars Str.isWhiteSpace w = true ->
  Str.allChars (fun c => negb (isSeparatorChar c)) w = true.
Proof.
  induction w as [|c w IH]; simpl; [reflexivity|].
  intros [Hc Hw]%andb_prop. now rewrite (ws_not_separator c Hc), IH.
Qed.

Lemma splitOnSeparators_app acc w x :
  Str.allChars (fun c => negb (isSeparatorChar c)) w = true ->
  splitOnSeparators acc (w ++ x) = splitOnSeparators (acc ++ w) x.
Proof.
  revert acc. induction w as [|c w IH]; intros acc; simpl.
  - now rewrite sapp_nil_r.
  - intros [Hc Hw]%andb_prop. apply negb_true_iff in Hc. rewrite Hc, IH by assumption.
    now rewrite sapp_assoc.
Qed.


Lemma splitOnSeparators_acc acc x :
  splitOnSeparators acc x = prepend acc (splitOnSeparators "" x).
Proof.
  revert acc. induction x as [|c x IH]; intros acc; simpl.
  - now rewrite sapp_nil_r.
  - destruct (isSeparatorChar c); simpl.
    + now rewrite sapp_nil_r.
    + rewrite (IH (acc ++ String c "")), (IH (String c "")).
      destruct (splitOnSeparators "" x); simpl; [reflexivity|].
      now rewrite sapp_assoc.
Qed.

Lemma splitOnSeparators_trim_ws w x :
  Str.allChars Str.isWhiteSpace w = true ->
  List.map Str.trim (splitOnSeparators w x) = List.map Str.trim (splitOnSeparators "" x).
Proof.
  intros Hw. rewrite splitOnSeparators_acc.
  destruct (splitOnSeparators "" x); simpl; [reflexivity|].
  now rewrite trim_app_ws_l.
Qed.

Lemma sep_at_Some s s' :
  sep_at s = Some s' ->
  exists w d w',
    s = w ++ String d (w' ++ s') /\
    Str.allChars Str.isWhiteSpace w = true /\
    isSeparatorChar d = true /\
    Str.allChars Str.isWhiteSpace w' = true.
Proof.
  unfold sep_at. destruct (trimStart_split s) as (w & Hs & Hw).
  destruct (Str.trimStart s) as [|d t]; [discriminate|].
  destruct (isSeparatorChar d) eqn:Ed; [|discriminate].
  intros [= <-]. destruct (trimStart_split t) as (w' & Ht & Hw').
  exists w, d, w'. rewrite <- Ht. auto.
Qed.

Lemma sep_at_None c t : sep_at (String c t) = None -> isSeparatorChar c = false.
Proof.
  unfold sep_at. simpl. destruct (isSeparatorChar c) eqn:Ec; [|reflexivity].
  destruct (Str.isWhiteSpace c) eqn:Ew.
  - now rewrite (ws_not_separator c Ew) in Ec.
  - now rewrite Ec.
Qed.

Lemma split_loop_separators fuel pv acc s :
  (String.length s < fuel)%nat ->
  List.map Str.trim (Re.split_loop airspaceSeparator fuel pv acc s)
  = List.map Str.trim (splitOnSeparators acc s).
Proof.
  revert pv acc s. induction fuel as [|fuel IH]; intros pv acc s Hf; [lia|].
  destruct s as [|c t]; [reflexivity|]. cbn [Re.split_loop].
  pose proof (sticky_sep pv (String c t)) as Hs.
  destruct (Re.sticky airspaceSeparator pv (String c t)) as [e|]; simpl in Hs.
  - symmetry in Hs. destruct (sep_at_Some _ _ Hs) as (w & d & w' & Heq & Hw & Hd & Hw').
    assert (Hlen : (String.length (Re.rest e) < String.length (String c t))%nat).
    { rewrite Heq, slength_app. simpl. rewrite slength_app. lia. }
    replace (Nat.eqb (String.length (Re.rest e)) (String.length (String c t))) with false
      by (symmetry; apply Nat.eqb_neq; lia).
    cbn [andb]. rewrite Heq.
    rewrite (splitOnSeparators_app acc w) by now apply allChars_ws_not_separator.
    cbn [splitOnSeparators]. rewrite Hd.
    rewrite (splitOnSeparators_app "" w') by now apply allChars_ws_not_separator.
    cbn [List.map]. rewrite (trim_app_ws_r acc w Hw).
    rewrite IH by (simpl in *; lia).
    simpl. now rewrite (splitOnSeparators_trim_ws w').
  - symmetry in Hs. apply sep_at_None in Hs. simpl. rewrite Hs.
    apply IH. simpl in Hf. lia.
Qed.

Lemma split_separators s :
  List.map Str.trim (Re.split airspaceSeparator s) = List.map Str.trim (splitOnSeparators "" s).
Proof.
  destruct s as [|c t].
  - unfold Re.split. pose proof (sticky_sep None "") as H.
    destruct (Re.sticky airspaceSeparator None ""); [discriminate|reflexivity].
  - unfold Re.split. apply split_loop_separators. lia.
Qed.

(** ** Upper case commutes with cutting and trimming *)

Lemma upper_app (a b : string) :
  Str.toUpperCase (a ++ b) = Str.toUpperCase a ++ Str.toUpperCase b.
Proof. induction a; simpl; congruence. Qed.

Lemma ws_upperChar c : Str.isWhiteSpace (Str.upperChar c) = Str.isWhiteSpace c.
Proof. destruct c as [[] [] [] [] [] [] [] []]; reflexivity. Qed.

Lemma sep_upperChar c : isSeparatorChar (Str.upperChar c) = isSeparatorChar c.
Proof. destruct c as [[] [] [] [] [] [] [] []]; reflexivity. Qed.

Lemma isEmpty_upper s : Str.isEmpty (Str.toUpperCase s) = Str.isEmpty s.
Proof. destruct s; reflexivity. Qed.

Lemma trimStart_upper s :
  Str.trimStart (Str.toUpperCase s) = Str.toUpperCase (Str.trimStart s).
Proof.
  induction s as [|c s IH]; simpl; [reflexivity|].
  rewrite ws_upperChar. destruct (Str.isWhiteSpace c); [exact IH|reflexivity].
Qed.

Lemma trimEnd_upper s :
  Str.trimEnd (Str.toUpperCase s) = Str.toUpperCase (Str.trimEnd s).
Proof.
  induction s as [|c s IH]; simpl; [reflexivity|].
  rewrite ws_upperChar, IH, isEmpty_upper.
  destruct (Str.isWhiteSpace c && Str.isEmpty (Str.trimEnd s)); reflexivity.
Qed.

Lemma trim_upper s : Str.trim (Str.toUpperCase s) = Str.toUpperCase (Str.trim s).
Proof. unfold Str.trim. now rewrite trimStart_upper, trimEnd_upper. Qed.

Lemma splitOnSeparators_upper acc s :
  splitOnSeparators (Str.toUpperCase acc) (Str.toUpperCase s)
  = List.map Str.toUpperCase (splitOnSeparators acc s).
Proof.
  revert acc. induction s as [|c s IH]; intros acc; simpl; [reflexivity|].
  rewrite sep_upperChar. destruct (isSeparatorChar c); simpl.
  - f_equal. apply (IH "").
  - rewrite <- IH. now rewrite upper_app.
Qed.

Lemma reqParts_requiredTokens r :
  reqParts r =
  List.filter (fun s => negb (Str.isEmpty s)) (List.map Str.toUpperCase (requiredTokens r)).
Proof.
  unfold reqParts, requiredTokens. rewrite split_separators.
  change "" with (Str.toUpperCase "") at 1. rewrite splitOnSeparators_upper.
  rewrite !List.map_map. f_equal. apply List.map_ext. intros s. apply trim_upper.
Qed.

Lemma forallb_filter_nonempty (f : string -> bool) l :
  f "" = true ->
  forallb f (List.filter (fun s => negb (Str.isEmpty s)) l) = forallb f l.
Proof.
  intros Hf. induction l as [|x l IH]; simpl; [reflexivity|].
  destruct x as [|c x]; simpl; [now rewrite Hf|]. now rewrite IH.
Qed.

Lemma eqb_empty s : String.eqb s "" = Str.isEmpty s.
Proof. destruct s; reflexivity. Qed.

(** C2. [matchAirspace] answers true when the trimmed rule value is [*] or
    empty; otherwise false when the trimmed input is empty; otherwise true
    exactly when every token of the rule value, cut at [+], [,] and [&]
    with the surrounding white space dropped, occurs in the input as a
    substring, both in upper case.  In particular it accepts ["A+B"]
    against ["XAYB"] and rejects it against ["XAY"]. *)
Theorem matchAirspace_spec (ruleVal inputVal : option string) :
  (matchAirspace ruleVal inputVal = true <->
     isWildcard (norm ruleVal) = true \/
     (norm inputVal <> "" /\
      Forall (fun tok => isSubstring (Str.toUpperCase tok)
                           (Str.toUpperCase (norm inputVal)))
             (requiredTokens (norm ruleVal))))
  /\ matchAirspace (Some "A+B") (Some "XAYB") = true
  /\ matchAirspace (Some "A+B") (Some "XAY") = false.
Proof.
  split; [|split; reflexivity].
  unfold matchAirspace, isWildcard.
  destruct (String.eqb (norm ruleVal) "*" || String.eqb (norm ruleVal) "") eqn:Ew.
  { split; auto. }
  rewrite eqb_empty.
  destruct (norm inputVal) as [|c v] eqn:Ev; cbn [Str.isEmpty].
  { split; [discriminate|]. intros [?|[? _]]; congruence. }
  rewrite <- Ev, reqParts_requiredTokens.
  rewrite forallb_filter_nonempty by apply includes_empty.
  rewrite forallb_forall. split.
  - intros H. right. split; [congruence|].
    apply List.Forall_forall. intros tok Htok. apply includes_spec, H.
    now apply List.in_map.
  - intros [?|[_ H]]; [discriminate|].
    intros x [tok [<- Htok]]%List.in_map_iff. apply includes_spec.
    rewrite List.Forall_forall in H. now apply H.
Qed.

(** ** Rule values made of separators only *)


Lemma splitOnSeparators_blank acc s :
  Str.allChars Str.isWhiteSpace acc = true ->
  Str.allChars isSeparatorOrSpace s = true ->
  Forall (fun p => Str.trim p = "") (splitOnSeparators acc s).
Proof.
  revert acc. induction s as [|c s IH]; intros acc Hacc Hs; simpl.
  - constructor; [|constructor]. unfold Str.trim. now rewrite trimStart_ws.
  - simpl in Hs. apply andb_prop in Hs as [Hc Hs].
    destruct (isSeparatorChar c) eqn:Ec.
    + constructor; [unfold Str.trim; now rewrite trimStart_ws | now apply IH].
    + apply IH; [|assumption]. unfold isSeparatorOrSpace in Hc. rewrite Ec in Hc.
      simpl in Hc. clear -Hacc Hc.
      induction acc as [|a acc IHa]; simpl in *; [now rewrite Hc|].
      apply andb_prop in Hacc as [-> Hacc]. simpl. auto.
Qed.

Lemma filter_nonempty_blank (f : string -> string) l :
  Forall (fun p => Str.trim p = "") l ->
  List.filter (fun s => negb (Str.isEmpty s)) (List.map (fun p => f (Str.trim p)) l) =
  List.filter (fun s => negb (Str.isEmpty s)) (List.map (fun _ => f "") l).
Proof.
  induction 1 as [|x l Hx _ IH]; simpl; [reflexivity|]. now rewrite Hx, IH.
Qed.

Lemma reqParts_separators_only r :
  Str.allChars isSeparatorOrSpace r = true -> reqParts r = [].
Proof.
  intros Hr. rewrite reqParts_requiredTokens. unfold requiredTokens.
  rewrite List.map_map.
  rewrite filter_nonempty_blank by now apply splitOnSeparators_blank.
  induction (splitOnSeparators "" r); simpl; auto.
Qed.

(** C9. A rule value that, once trimmed, is not empty and consists of
    separators and white space only yields no required token, so
    [matchAirspace] accepts every input that is not blank; unlike the
    wildcards it still rejects a blank input. *)
Theorem matchAirspace_separators_only (ruleVal inputVal : option string) :
  norm ruleVal <> "" ->
  Str.allChars isSeparatorOrSpace (norm ruleVal) = true ->
  reqParts (norm ruleVal) = []
  /\ matchAirspace ruleVal inputVal = negb (Str.isEmpty (norm inputVal)).
Proof.
  intros Hne Hall. pose proof (reqParts_separators_only _ Hall) as Hparts.
  split; [assumption|].
  unfold matchAirspace. rewrite Hparts, !eqb_empty.
  destruct (norm ruleVal) as [|c r] eqn:Er; [congruence|].
  replace (String.eqb (String c r) "*") with false.
  - cbn [Str.isEmpty orb]. destruct (Str.isEmpty (norm inputVal)); reflexivity.
  - symmetry. apply String.eqb_neq. intros [= -> ->]. discriminate.
Qed.

Lemma matchAirspace_separators_only_witness :
  matchAirspace (Some " , ") (Some "N+S") = true
  /\ matchAirspace (Some "+") (Some "  ") = false.
Proof.
  split.
  - apply (proj2 (matchAirspace_separators_only (Some " , ") (Some "N+S")
                    ltac:(discriminate) eq_refl)).
  - apply (proj2 (matchAirspace_separators_only (Some "+") (Some "  ")
                    ltac:(discriminate) eq_refl)).
Defined.

(** ** Order of numbers and the comparator of [sort] *)

Lemma rne_ge a b : 0 <= a -> 0 < b -> a / b <= Num.rne a b.
Proof.
  intros Ha Hb. unfold Num.rne.
  destruct (2 * (a mod b) <? b); [lia|].
  destruct (b <? 2 * (a mod b)); [lia|].
  destruct (Z.even (a / b)); lia.
Qed.

Lemma round_pos_pos p : 0 < p -> 0 < Num.round_pos p 1.
Proof.
  intros Hp. unfold Num.round_pos. rewrite Z.div_1_r, Z.mul_1_l.
  set (j := Z.max 0 (Z.log2 p - 52)).
  assert (Hj : 0 <= j) by lia.
  assert (Hpow : 0 < 2 ^ j) by (apply Z.pow_pos_nonneg; lia).
  assert (Hle : 2 ^ j <= p).
  { destruct (Z.log2_spec p Hp) as [Hlo _].
    transitivity (2 ^ Z.log2 p); [|exact Hlo].
    apply Z.pow_le_mono_r; [lia|]. pose proof (Z.log2_nonneg p). lia. }
  pose proof (rne_ge p (2 ^ j) ltac:(lia) Hpow) as Hr.
  assert (1 <= p / 2 ^ j) by (apply Z.div_le_lower_bound; lia).
  nia.
Qed.

Lemma round_pos_0 : Num.round_pos 0 1 = 0.
Proof. reflexivity. Qed.

Lemma sortOrder_round p : sortOrder (Num.round p 1) = (p ?= 0).
Proof.
  unfold Num.round.
  destruct (Z.compare_spec p 0) as [->|Hneg|Hpos].
  - reflexivity.
  - pose proof (round_pos_pos (Z.abs p) ltac:(lia)).
    destruct (Num.overflow <=? Num.round_pos (Z.abs p) 1); simpl.
    + replace (p <? 0) with true by (symmetry; apply Z.ltb_lt; lia). reflexivity.
    + apply Z.compare_lt_iff. nia.
  - pose proof (round_pos_pos (Z.abs p) ltac:(lia)).
    destruct (Num.overflow <=? Num.round_pos (Z.abs p) 1); simpl.
    + replace (p <? 0) with false by (symmetry; apply Z.ltb_ge; lia). reflexivity.
    + apply Z.compare_gt_iff. nia.
Qed.

Lemma sortOrder_sub a b :
  a <> Num.NaN -> b <> Num.NaN ->
  sortOrder (Num.sub a b) =
    if Num.ltb a b then Lt else if Num.ltb b a then Gt else Eq.
Proof.
  intros Ha Hb. destruct a as [|[]|x], b as [|[]|y]; try congruence; try reflexivity.
  unfold Num.sub, Num.neg, Num.add. rewrite sortOrder_round. simpl.
  destruct (Z.ltb_spec x y), (Z.ltb_spec y x), (Z.compare_spec (x + - y) 0);
    try reflexivity; lia.
Qed.

Lemma ltb_leb_trans a b c :
  Num.ltb a b = true -> Num.leb b c = true -> Num.ltb a c = true.
Proof.
  unfold Num.leb. destruct a as [|[]|x], b as [|[]|y], c as [|[]|z]; simpl;
    try congruence; try reflexivity;
    rewrite ?orb_true_iff, ?Z.ltb_lt, ?Z.eqb_eq; try lia; intuition congruence.
Qed.

Lemma leb_trans a b c :
  Num.leb a b = true -> Num.leb b c = true -> Num.leb a c = true.
Proof.
  unfold Num.leb. destruct a as [|[]|x], b as [|[]|y], c as [|[]|z]; simpl;
    try congruence; try reflexivity;
    rewrite ?orb_true_iff, ?Z.ltb_lt, ?Z.eqb_eq; try lia; intuition congruence.
Qed.

Lemma ltb_leb a b : Num.ltb a b = true -> Num.leb a b = true.
Proof. unfold Num.leb. now intros ->. Qed.

Lemma not_ltb_leb a b :
  a <> Num.NaN -> b <> Num.NaN -> Num.ltb b a = false -> Num.leb a b = true.
Proof.
  unfold Num.leb. destruct a as [|[]|x], b as [|[]|y]; simpl;
    try congruence; try reflexivity.
  rewrite Z.ltb_ge, orb_true_iff, Z.ltb_lt, Z.eqb_eq. lia.
Qed.

Lemma ltb_irrefl_leb a b : Num.ltb a b = true -> Num.leb b a = true -> False.
Proof.
  unfold Num.leb. destruct a as [|[]|x], b as [|[]|y]; simpl;
    try congruence;
    rewrite ?orb_true_iff, ?Z.ltb_lt, ?Z.eqb_eq; try lia; intuition congruence.
Qed.

(** ** The first element of a sorted array of matches *)

Lemma head_insertSorted {A} (f : A -> A -> num) x l :
  head (insertSorted f x l) =
    match head l with
    | None => Some x
    | Some y => match sortOrder (f x y) with Gt => Some y | _ => Some x end
    end.
Proof. destruct l as [|y l]; simpl; [reflexivity|]. now destruct (sortOrder (f x y)). Qed.

Lemma pick_unfold t inputs :
  pickDepartureRule t inputs =
  head (sort byPriority (List.filter (satisfies inputs) (depRulesRows t))).
Proof. unfold pickDepartureRule. now destruct (List.filter _ _). Qed.

Lemma head_sort_selects rows inputs :
  (forall r, In r rows -> satisfies inputs r = true -> priority r <> Num.NaN) ->
  selectsLowestPriority rows inputs
    (head (sort byPriority (List.filter (satisfies inputs) rows))).
Proof.
  induction rows as [|x rows IH]; intros Hnum.
  - simpl. intros r [].
  - assert (Hnum' : forall r, In r rows -> satisfies inputs r = true ->
                              priority r <> Num.NaN)
      by (intros; apply Hnum; simpl; auto).
    specialize (IH Hnum'). simpl List.filter.
    destruct (satisfies inputs x) eqn:Hx.
    + change (sort byPriority (x :: ?l)) with (insertSorted byPriority x (sort byPriority l)).
      rewrite head_insertSorted.
      destruct (head (sort byPriority (List.filter (satisfies inputs) rows))) as [r|].
      * destruct IH as (Hr & before & after & -> & Hb & Ha).
        assert (Hnx : priority x <> Num.NaN) by (apply Hnum; simpl; auto).
        assert (Hnr : priority r <> Num.NaN)
          by (apply Hnum; [simpl; right; apply in_or_app; simpl; auto | assumption]).
        unfold byPriority. rewrite sortOrder_sub by assumption.
        destruct (Num.ltb (priority x) (priority r)) eqn:Hlt;
          [|destruct (Num.ltb (priority r) (priority x)) eqn:Hgt].
        -- simpl. split; [assumption|]. exists [], (before ++ r :: after)%list.
           split; [reflexivity|]. split; [intros ? []|].
           intros r' Hin Hs. apply in_app_or in Hin as [Hin|[<-|Hin]].
           ++ apply ltb_leb. eapply ltb_leb_trans; [exact Hlt|]. now apply ltb_leb, Hb.
           ++ now apply ltb_leb.
           ++ apply ltb_leb. eapply ltb_leb_trans; [exact Hlt|]. now apply Ha.
        -- simpl. split; [assumption|]. exists (x :: before), after.
           split; [reflexivity|]. split; [|assumption].
           intros r' [<-|Hin] Hs; [assumption|now apply Hb].
        -- simpl. split; [assumption|]. exists [], (before ++ r :: after)%list.
           split; [reflexivity|]. split; [intros ? []|].
           assert (Hxr : Num.leb (priority x) (priority r) = true)
             by now apply not_ltb_leb.
           intros r' Hin Hs. apply in_app_or in Hin as [Hin|[<-|Hin]].
           ++ eapply leb_trans; [exact Hxr|]. now apply ltb_leb, Hb.
           ++ assumption.
           ++ eapply leb_trans; [exact Hxr|]. now apply Ha.
      * simpl. split; [assumption|]. exists [], rows. split; [reflexivity|].
        split; [intros ? []|]. intros r' Hin Hs. simpl in IH.
        rewrite (IH r' Hin) in Hs. discriminate.
    + destruct (head (sort byPriority (List.filter (satisfies inputs) rows))) as [r|]; simpl in *.
      * destruct IH as (Hr & before & after & -> & Hb & Ha). split; [assumption|].
        exists (x :: before), after. split; [reflexivity|]. split; [|assumption].
        intros r' [<-|Hin] Hs; [congruence|now apply Hb].
      * intros r [<-|Hin]; [assumption|now apply IH].
Qed.

(** C1 (as amended).  When the [PRIORITY] of every satisfying row reads as
    a number, [pickDepartureRule] answers nothing exactly when no row
    satisfies the seven predicates, and otherwise the satisfying row with
    the lowest priority number, the earliest such row in table order; the
    answer is a function of the table and the input vector. *)
Theorem pickDepartureRule_lowest_priority (t : Tables) (inputs : Inputs) :
  (forall r, In r (depRulesRows t) -> satisfies inputs r = true ->
             priority r <> Num.NaN) ->
  selectsLowestPriority (depRulesRows t) inputs (pickDepartureRule t inputs)
  /\ (forall res res', pickDepartureRule t inputs = res ->
                       pickDepartureRule t inputs = res' -> res = res').
Proof.
  intros Hnum. split.
  - rewrite pick_unfold. now apply head_sort_selects.
  - congruence.
Qed.

Lemma pickDepartureRule_lowest_priority_witness :
  (forall r, In r rowsWithLaterTie ->
             satisfies (scenarioInputs (Some "B738")) r = true ->
             priority r <> Num.NaN)
  /\ selectsLowestPriority rowsWithLaterTie (scenarioInputs (Some "B738"))
       (pickDepartureRule (rulesOnly rowsWithLaterTie) (scenarioInputs (Some "B738"))).
Proof.
  assert (H : forall r, In r rowsWithLaterTie ->
                        satisfies (scenarioInputs (Some "B738")) r = true ->
                        priority r <> Num.NaN).
  { intros r [<-|[<-|[<-|[]]]] _; vm_compute; discriminate. }
  split; [exact H|].
  exact (proj1 (pickDepartureRule_lowest_priority (rulesOnly rowsWithLaterTie)
                  (scenarioInputs (Some "B738")) H)).
Defined.

(** C1 as stated fails on a table in which a satisfying row has a
    [PRIORITY] that is not a number: the comparator answers [NaN] for it,
    [sort] leaves the rows where they are, and the row selected is the
    first one, not the one with the lowest numeric priority. *)
Lemma pickDepartureRule_text_priority_counterexample :
  ~ selectsLowestPriority rowsWithTextPriority (scenarioInputs (Some "B738"))
      (pickDepartureRule (rulesOnly rowsWithTextPriority) (scenarioInputs (Some "B738"))).
Proof.
  assert (Hp : pickDepartureRule (rulesOnly rowsWithTextPriority)
                 (scenarioInputs (Some "B738"))
               = Some (catchAllRule "LGA7.CONEY" "TBD")) by (vm_compute; reflexivity).
  rewrite Hp. intros (_ & before & after & Heq & _ & Ha).
  destruct before as [|b before].
  - apply (f_equal (@List.tl Row)) in Heq. simpl in Heq. subst after.
    specialize (Ha scenarioRule (or_introl eq_refl) eq_refl).
    vm_compute in Ha. discriminate.
  - apply (f_equal (@List.tl Row)) in Heq. simpl in Heq.
    destruct before as [|b' before].
    + apply (f_equal (fun l : list Row => (.!! "PRIORITY") <$> head l)) in Heq.
      vm_compute in Heq. discriminate.
    + apply (f_equal (@List.length Row)) in Heq. simpl in Heq.
      rewrite List.length_app in Heq. simpl in Heq. lia.
Qed.

(** ** The end-to-end scenario *)

Lemma eqb_leb_sym a b : Num.eqb a b = true -> Num.leb b a = true.
Proof.
  unfold Num.leb. destruct a as [|[]|x], b as [|[]|y]; simpl;
    try congruence; try reflexivity.
  rewrite orb_true_iff, !Z.eqb_eq. auto.
Qed.

Lemma ltb_not_NaN_r a b : Num.ltb a b = true -> b <> Num.NaN.
Proof. destruct a as [|[]|x], b as [|[]|y]; simpl; congruence. Qed.

Lemma eqb_not_NaN_l a b : Num.eqb a b = true -> a <> Num.NaN.
Proof. destruct a as [|[]|x], b as [|[]|y]; simpl; congruence. Qed.

Lemma scenarioRule_satisfies r acft :
  isScenarioRule r -> satisfies (scenarioInputs acft) r = true.
Proof.
  intros (H1 & H2 & H3 & H4 & H5 & H6 & H7 & _).
  unfold satisfies. rewrite H1, H2, H3, H4, H5, H6, H7. reflexivity.
Qed.

Lemma scenarioRule_priority r : isScenarioRule r -> priority r = Num.ofZ 1.
Proof.
  intros (_ & _ & _ & _ & _ & _ & _ & _ & H9).
  unfold priority. rewrite H9. vm_compute. reflexivity.
Qed.

Lemma scenarioRule_climb r : isScenarioRule r -> climbText r = "CLIMB VIA SID".
Proof.
  intros (_ & _ & _ & _ & _ & _ & _ & H8 & _).
  unfold climbText. rewrite H8. reflexivity.
Qed.

(** C4 (as amended).  Against the scenario's input vector, for any
    aircraft type, a table that holds the scenario's rule row at position
    [i] and in which every other satisfying row has a priority number
    greater than 1, or equal to 1 and a later position, makes
    [pickDepartureRule] select that row, and the climb instruction shown
    for it is "CLIMB VIA SID". *)
Theorem scenario_selects_rule (t : Tables) (acft : option string) (rule : Row) (i : nat) :
  depRulesRows t !! i = Some rule ->
  isScenarioRule rule ->
  (forall j r, depRulesRows t !! j = Some r -> j <> i ->
               satisfies (scenarioInputs acft) r = true ->
               Num.ltb (Num.ofZ 1) (priority r) = true \/
               (Num.eqb (priority r) (Num.ofZ 1) = true /\ (i < j)%nat)) ->
  pickDepartureRule t (scenarioInputs acft) = Some rule
  /\ climbText rule = "CLIMB VIA SID".
Proof.
  intros Hi Hrule Hothers. split; [|now apply scenarioRule_climb].
  pose proof (scenarioRule_satisfies rule acft Hrule) as Hsat.
  pose proof (scenarioRule_priority rule Hrule) as Hprio.
  assert (Hnum : forall r, In r (depRulesRows t) ->
                           satisfies (scenarioInputs acft) r = true ->
                           priority r <> Num.NaN).
  { intros r Hin Hs. apply list_elem_of_In, list_elem_of_lookup in Hin as [j Hj].
    destruct (decide (j = i)) as [->|Hne].
    - rewrite Hi in Hj. injection Hj as <-. rewrite Hprio. vm_compute. discriminate.
    - destruct (Hothers j r Hj Hne Hs) as [H|[H _]].
      + now apply ltb_not_NaN_r in H.
      + now apply eqb_not_NaN_l in H. }
  pose proof (head_sort_selects _ _ Hnum) as Hsel. rewrite <- pick_unfold in Hsel.
  destruct (pickDepartureRule t (scenarioInputs acft)) as [r|];
    cbn [selectsLowestPriority] in Hsel.
  2:{ assert (Hin : In rule (depRulesRows t))
        by (apply list_elem_of_In, list_elem_of_lookup; eauto).
      specialize (Hsel rule Hin). rewrite Hsat in Hsel. inversion Hsel. }
  destruct Hsel as (Hr & before & after & Heq & Hb & Ha).
  assert (Hmid : depRulesRows t !! length before = Some r)
    by (rewrite Heq; apply list_lookup_middle; reflexivity).
  destruct (Nat.lt_trichotomy i (length before)) as [Hlt|[->|Hgt]].
  - exfalso.
    assert (Hin : In rule before).
    { apply list_elem_of_In, list_elem_of_lookup. exists i.
      rewrite Heq, lookup_app_l in Hi by assumption. exact Hi. }
    specialize (Hb rule Hin Hsat). rewrite Hprio in Hb.
    destruct (Hothers _ _ Hmid ltac:(lia) Hr) as [H|[H _]].
    + eapply ltb_irrefl_leb; [exact Hb|]. now apply ltb_leb.
    + eapply ltb_irrefl_leb; [exact Hb|]. now apply eqb_leb_sym.
  - rewrite Hi in Hmid. congruence.
  - exfalso.
    assert (Hin : In rule after).
    { apply list_elem_of_In, list_elem_of_lookup. exists (i - S (length before))%nat.
      rewrite Heq, lookup_app_r in Hi by lia.
      replace (i - length before)%nat with (S (i - S (length before))) in Hi by lia.
      exact Hi. }
    specialize (Ha rule Hin Hsat). rewrite Hprio in Ha.
    destruct (Hothers _ _ Hmid ltac:(lia) Hr) as [H|[_ H]]; [|lia].
    eapply ltb_irrefl_leb; [exact H|exact Ha].
Qed.

Lemma scenarioRule_isScenarioRule : isScenarioRule scenarioRule.
Proof. repeat split. Qed.

Lemma scenario_selects_rule_witness :
  pickDepartureRule (rulesOnly rowsWithLaterTie) (scenarioInputs (Some "B738"))
    = Some scenarioRule
  /\ climbText scenarioRule = "CLIMB VIA SID".
Proof.
  apply (scenario_selects_rule (rulesOnly rowsWithLaterTie) (Some "B738") scenarioRule 1).
  - reflexivity.
  - exact scenarioRule_isScenarioRule.
  - intros [|[|[|j]]] r Hj Hne _; simpl in Hj; try discriminate; try congruence.
    + injection Hj as <-. left. vm_compute. reflexivity.
    + injection Hj as <-. right. split; [vm_compute; reflexivity|lia].
Defined.

(** C4 as stated fails on a table that holds, before the scenario's rule,
    another satisfying row with the same priority: no satisfying row has a
    lower priority number than the scenario's rule, yet the earlier row is
    the one selected. *)
Lemma scenario_tie_counterexample :
  In scenarioRule rowsWithTie
  /\ isScenarioRule scenarioRule
  /\ (forall r, In r rowsWithTie ->
                satisfies (scenarioInputs (Some "B738")) r = true ->
                Num.ltb (priority r) (priority scenarioRule) = false)
  /\ pickDepartureRule (rulesOnly rowsWithTie) (scenarioInputs (Some "B738"))
       = Some (catchAllRule "LGA7.CONEY" "1")
  /\ catchAllRule "LGA7.CONEY" "1" <> scenarioRule.
Proof.
  split; [right; left; reflexivity|].
  split; [exact scenarioRule_isScenarioRule|].
  split; [intros r [<-|[<-|[]]] _; vm_compute; reflexivity|].
  split; [vm_compute; reflexivity|].
  intros H. apply (f_equal (fun r : Row => r !! "OUTPUT")) in H.
  vm_compute in H. discriminate.
Qed.

(** ** Flight category *)

Lemma ofZ_bounds :
  Num.ofZ 1 = Num.Fin (1 * Num.U) /\ Num.ofZ 3 = Num.Fin (3 * Num.U)
  /\ Num.ofZ 5 = Num.Fin (5 * Num.U) /\ Num.ofZ 500 = Num.Fin (500 * Num.U)
  /\ Num.ofZ 1000 = Num.Fin (1000 * Num.U) /\ Num.ofZ 3000 = Num.Fin (3000 * Num.U).
Proof. vm_compute. repeat split. Qed.

Lemma finiteBelow_iff x n :
  Num.ofZ n = Num.Fin (n * Num.U) ->
  finiteBelow x n = true <-> isBelow x n.
Proof.
  intros Hn. unfold finiteBelow, isBelow. rewrite Hn. clear Hn.
  destruct x as [|b|k]; cbn [Num.isFinite Num.ltb andb].
  - split; [discriminate|]. intros (k & H & _). discriminate.
  - split; [discriminate|]. intros (k & H & _). discriminate.
  - rewrite Z.ltb_lt. split.
    + intros H. exists k. split; [reflexivity|exact H].
    + intros (k' & [= <-] & H). exact H.
Qed.

Lemma bands_iff ceil vis a b :
  Num.ofZ a = Num.Fin (a * Num.U) -> Num.ofZ b = Num.Fin (b * Num.U) ->
  finiteBelow ceil a || finiteBelow vis b = true <-> isBelow ceil a \/ isBelow vis b.
Proof.
  intros Ha Hb. rewrite orb_true_iff, (finiteBelow_iff ceil a Ha), (finiteBelow_iff vis b Hb).
  reflexivity.
Qed.

Lemma bands_not ceil vis a b :
  Num.ofZ a = Num.Fin (a * Num.U) -> Num.ofZ b = Num.Fin (b * Num.U) ->
  finiteBelow ceil a || finiteBelow vis b = false -> ~ (isBelow ceil a \/ isBelow vis b).
Proof.
  intros Ha Hb H Hn. apply (bands_iff ceil vis a b Ha Hb) in Hn.
  rewrite H in Hn. clear -Hn. discriminate.
Qed.

Lemma flightCategory_inBand (m : option string) :
  Str.isEmpty (norm m) = false ->
  exists c, flightCategory m
            = {| cat := categoryName c; cls := "wxCat" ++ categoryName c |}
            /\ inBand (parseCeilFt (norm m)) (parseVisSM (norm m)) c.
Proof.
  intros Hm. unfold flightCategory. rewrite Hm.
  destruct ofZ_bounds as (H1 & H3 & H5 & H500 & H1000 & H3000).
  set (ceil := parseCeilFt (norm m)). set (vis := parseVisSM (norm m)).
  destruct (finiteBelow ceil 500 || finiteBelow vis 1) eqn:E1.
  { exists LIFR. split; [reflexivity|]. apply (bands_iff ceil vis 500 1 H500 H1). exact E1. }
  apply (bands_not ceil vis 500 1 H500 H1) in E1.
  destruct (finiteBelow ceil 1000 || finiteBelow vis 3) eqn:E2.
  { exists IFR. split; [reflexivity|]. split; [exact E1|].
    apply (bands_iff ceil vis 1000 3 H1000 H3). exact E2. }
  apply (bands_not ceil vis 1000 3 H1000 H3) in E2.
  destruct (finiteBelow ceil 3000 || finiteBelow vis 5) eqn:E3.
  { exists MVFR. split; [reflexivity|]. split; [exact E2|].
    apply (bands_iff ceil vis 3000 5 H3000 H5). exact E3. }
  apply (bands_not ceil vis 3000 5 H3000 H5) in E3.
  exists VFR. split; [reflexivity|exact E3].
Qed.

Lemma inBand_unique ceil vis c c' :
  inBand ceil vis c -> inBand ceil vis c' -> c = c'.
Proof.
  assert (H12 : isBelow ceil 500 -> isBelow ceil 1000)
    by (intros (k & -> & H); exists k; split; [reflexivity|]; unfold Num.U in *; lia).
  assert (H23 : isBelow ceil 1000 -> isBelow ceil 3000)
    by (intros (k & -> & H); exists k; split; [reflexivity|]; unfold Num.U in *; lia).
  assert (V12 : isBelow vis 1 -> isBelow vis 3)
    by (intros (k & -> & H); exists k; split; [reflexivity|]; unfold Num.U in *; lia).
  assert (V23 : isBelow vis 3 -> isBelow vis 5)
    by (intros (k & -> & H); exists k; split; [reflexivity|]; unfold Num.U in *; lia).
  destruct c, c'; cbn [inBand]; try (intros; reflexivity);
    revert H12 H23 V12 V23;
    generalize (isBelow ceil 500), (isBelow ceil 1000), (isBelow ceil 3000),
               (isBelow vis 1), (isBelow vis 3), (isBelow vis 5);
    tauto.
Qed.

(** C5.  A blank report has the category "—".  For any other report the
    category is LIFR when the parsed ceiling is below 500 ft or the parsed
    visibility below 1 SM; else IFR when the ceiling is below 1000 ft or
    the visibility below 3 SM; else MVFR when the ceiling is below 3000 ft
    or the visibility below 5 SM; else VFR.  The bounds are exclusive: a
    ceiling of exactly 500 ft is not below 500, so with a visibility that
    is not below 1 SM the category is IFR; a visibility of exactly 3 SM is
    not below 3, so with a ceiling that is not below 1000 ft the category
    is MVFR. *)
Theorem flightCategory_bands (metar : option string) :
  (if Str.isEmpty (norm metar)
   then flightCategory metar = {| cat := "—"; cls := "" |}
   else exists c,
          cat (flightCategory metar) = categoryName c
          /\ inBand (parseCeilFt (norm metar)) (parseVisSM (norm metar)) c)
  /\ (Str.isEmpty (norm metar) = false ->
      parseCeilFt (norm metar) = Num.ofZ 500 ->
      ~ isBelow (parseVisSM (norm metar)) 1 ->
      cat (flightCategory metar) = "IFR")
  /\ (Str.isEmpty (norm metar) = false ->
      parseVisSM (norm metar) = Num.ofZ 3 ->
      ~ isBelow (parseCeilFt (norm metar)) 1000 ->
      cat (flightCategory metar) = "MVFR")
  /\ cat (flightCategory (Some metarCeiling500)) = "IFR"
  /\ cat (flightCategory (Some metarVisibility3)) = "MVFR".
Proof.
  destruct ofZ_bounds as (H1 & H3 & H5 & H500 & H1000 & H3000).
  split; [|split; [|split; [|split; vm_compute; reflexivity]]].
  - destruct (Str.isEmpty (norm metar)) eqn:Hm.
    + unfold flightCategory. rewrite Hm. reflexivity.
    + destruct (flightCategory_inBand metar Hm) as (c & -> & Hc).
      exists c. split; [reflexivity|exact Hc].
  - intros Hm Hceil Hvis.
    destruct (flightCategory_inBand metar Hm) as (c & -> & Hc).
    cbn [cat]. change "IFR" with (categoryName IFR). f_equal.
    apply (inBand_unique _ _ c IFR Hc). rewrite Hceil, H500. cbn [inBand]. split.
    + intros [(k & [= <-] & Hk)|Hv]; [lia|contradiction].
    + left. exists (500 * Num.U). split; [reflexivity|]. unfold Num.U. lia.
  - intros Hm Hvis Hceil.
    destruct (flightCategory_inBand metar Hm) as (c & -> & Hc).
    cbn [cat]. change "MVFR" with (categoryName MVFR). f_equal.
    apply (inBand_unique _ _ c MVFR Hc). rewrite Hvis, H3. cbn [inBand]. split.
    + intros [Hc'|(k & [= <-] & Hk)]; [contradiction|lia].
    + right. exists (3 * Num.U). split; [reflexivity|]. unfold Num.U. lia.
Qed.

(** ** Frequency display *)






Lemma allChars_app p (a b : string) :
  Str.allChars p (a ++ b) = Str.allChars p a && Str.allChars p b.
Proof. induction a as [|c a IH]; simpl; [reflexivity|]. now rewrite IH, andb_assoc. Qed.
















Lemma U_pos : 0 < Num.U.
Proof. unfold Num.U. apply Z.pow_pos_nonneg; lia. Qed.





(** ** Sorting with a consistent comparator *)

Section SortFacts.
Context {A : Type} (f : A -> A -> num) (R : A -> A -> Prop) (P : A -> Prop).
Hypothesis R_trans : forall x y z, R x y -> R y z -> R x z.
Hypothesis f_before : forall x y, P x -> P y -> sortOrder (f x y) <> Gt -> R x y.
Hypothesis f_after : forall x y, P x -> P y -> sortOrder (f x y) = Gt -> R y x.

Lemma insertSorted_In x y l : In y (insertSorted f x l) <-> y = x \/ In y l.
Proof.
  induction l as [|z l IH]; simpl.
  - intuition.
  - destruct (sortOrder (f x z)); simpl; try rewrite IH; intuition.
Qed.

Lemma sort_In y l : In y (sort f l) <-> In y l.
Proof.
  induction l as [|x l IH]; simpl; [reflexivity|].
  rewrite insertSorted_In, IH. intuition.
Qed.


End SortFacts.

(** ** The navaid map *)










Section NavaidOrder.
Variable host : Host.

(** The distance of two points with finite coordinates is a finite
    number. *)
Hypothesis distance_finite : forall lat lon,
  Num.isFinite lat = true -> Num.isFinite lon = true ->
  Num.isFinite (haversineNM host KLGA_LAT KLGA_LON lat lon) = true.

(** [localeCompare] is a consistent comparator: exchanging the
    arguments turns "after" into "not after", and "not after" is
    transitive. *)
Hypothesis localeCompare_exchange : forall a b,
  sortOrder (localeCompare host a b) = Gt -> sortOrder (localeCompare host b a) <> Gt.
Hypothesis localeCompare_trans : forall a b c,
  sortOrder (localeCompare host a b) <> Gt ->
  sortOrder (localeCompare host b c) <> Gt ->
  sortOrder (localeCompare host a c) <> Gt.







End NavaidOrder.

(** ** A host that meets the assumptions *)








(** ** Selection of the report line *)

Lemma find_first {A} (f : A -> bool) l x :
  List.find f l = Some x ->
  exists before after,
    l = (before ++ x :: after)%list /\ f x = true
    /\ forall y, In y before -> f y = false.
Proof.
  induction l as [|y l IH]; simpl; [discriminate|].
  destruct (f y) eqn:Hy.
  - intros [= <-]. exists [], l. split; [reflexivity|]. split; [assumption|]. intros ? [].
  - intros H. destruct (IH H) as (before & after & -> & Hx & Hb).
    exists (y :: before), after. split; [reflexivity|]. split; [assumption|].
    intros z [<-|Hz]; auto.
Qed.

Lemma find_none_all {A} (f : A -> bool) l :
  List.find f l = None -> forall y, In y l -> f y = false.
Proof. intros H y Hy. exact (List.find_none f l H y Hy). Qed.

(** C8 (as amended).  A failed request is an error.  Otherwise, with the
    identifier trimmed and in upper case and the response cut into its
    trimmed non-blank lines, the report is the first line that, in upper
    case, starts with the identifier followed by a space; without such a
    line it is the first line; and without any line it is the identifier
    followed by " (no METAR)". *)
Theorem fetchVatsimMetar_selection (icao : option string) (res : Response) :
  let id := Str.toUpperCase (norm icao) in
  let lines := reportLines (body res) in
  match fetchVatsimMetar icao res with
  | inr _ => ok res = false
  | inl out =>
      ok res = true /\
      ((exists before after,
          lines = (before ++ out :: after)%list /\ isReportOf id out = true
          /\ forall l, In l before -> isReportOf id l = false)
       \/ ((forall l, In l lines -> isReportOf id l = false)
           /\ exists after, lines = out :: after)
       \/ (lines = [] /\ out = id ++ " (no METAR)"))
  end.
Proof.
  cbv zeta. unfold fetchVatsimMetar. destruct (ok res); cbn [negb]; [|reflexivity].
  fold (isReportOf (Str.toUpperCase (norm icao))).
  destruct (List.find _ (reportLines (body res))) as [l|] eqn:Hf.
  - split; [reflexivity|]. left. exact (find_first _ _ _ Hf).
  - pose proof (find_none_all _ _ Hf) as Hnone.
    destruct (reportLines (body res)) as [|l rest] eqn:Hl.
    + split; [reflexivity|]. right. right. split; reflexivity.
    + split; [reflexivity|]. right. left. split; [exact Hnone|]. exists rest. reflexivity.
Qed.

(** C8 as stated fails twice.  A response without any line gives the
    identifier followed by " (no METAR)", not "(no report)"; and a line
    whose first token is the identifier is passed over when nothing
    follows the identifier on it. *)
Lemma fetchVatsimMetar_counterexample :
  (fetchVatsimMetar (Some "KLGA") {| ok := true; status := "200"; body := "" |}
     = inl "KLGA (no METAR)"
   /\ Str.includes "KLGA (no METAR)" "(no report)" = false)
  /\ (reportLines ("KJFK 010000Z 00000KT" ++ LF ++ "KLGA") = ["KJFK 010000Z 00000KT"; "KLGA"]
      /\ firstToken "KLGA" = "KLGA"
      /\ fetchVatsimMetar (Some "KLGA")
           {| ok := true; status := "200";
              body := "KJFK 010000Z 00000KT" ++ LF ++ "KLGA" |}
         = inl "KJFK 010000Z 00000KT").
Proof. vm_compute. repeat split. Qed.

(** ** Runway configuration *)

Lemma isEmpty_false_iff s : Str.isEmpty s = false <-> s <> "".
Proof. destruct s; simpl; split; congruence. Qed.

Lemma lgaStrong_nonempty dir imc : lgaStrong dir imc <> "".
Proof.
  unfold lgaStrong.
  destruct (Num.leb dir (numLit 89)); [discriminate|].
  destruct (Num.leb dir (numLit 179)); [destruct imc; discriminate|].
  destruct (Num.leb dir (numLit 269)); discriminate.
Qed.

Lemma lgaBand14_nonempty dir imc s : lgaBand14 dir imc = Some s -> s <> "".
Proof.
  unfold lgaBand14.
  destruct (_ || _); [destruct imc; intros [= <-]; discriminate|].
  destruct (_ && _); [intros [= <-]; discriminate|].
  destruct (_ && _); [intros [= <-]; discriminate|].
  destruct (_ && _); [intros [= <-]; discriminate|discriminate].
Qed.

Lemma lgaBand27_nonempty dir imc s : lgaBand27 dir imc = Some s -> s <> "".
Proof.
  unfold lgaBand27.
  destruct (_ || _); [destruct imc; intros [= <-]; discriminate|].
  destruct (_ && _); [intros [= <-]; discriminate|].
  destruct (_ && _); [intros [= <-]; discriminate|].
  destruct (_ && _); [intros [= <-]; discriminate|discriminate].
Qed.

Lemma numLit_sectors :
  numLit 44 = degrees 44 /\ numLit 45 = degrees 45 /\ numLit 134 = degrees 134
  /\ numLit 135 = degrees 135 /\ numLit 224 = degrees 224 /\ numLit 225 = degrees 225
  /\ numLit 259 = degrees 259 /\ numLit 260 = degrees 260 /\ numLit 314 = degrees 314
  /\ numLit 315 = degrees 315.
Proof. vm_compute. repeat split. Qed.

Lemma leb_degrees a b : Num.leb (degrees a) (degrees b) = (a <=? b).
Proof.
  unfold Num.leb, degrees. cbn [Num.ltb Num.eqb]. pose proof U_pos.
  destruct (Z.leb_spec a b), (Z.ltb_spec (a * Num.U) (b * Num.U)),
    (Z.eqb_spec (a * Num.U) (b * Num.U)); simpl; try reflexivity; nia.
Qed.

Lemma geb_degrees a b : Num.geb (degrees a) (degrees b) = (b <=? a).
Proof. apply leb_degrees. Qed.

Lemma bands_cover d imc :
  0 <= d <= 359 ->
  lgaBand14 (degrees d) imc <> None /\ lgaBand27 (degrees d) imc <> None.
Proof.
  intros Hd.
  destruct numLit_sectors as (E44 & E45 & E134 & E135 & E224 & E225 & E259 & E260 & E314 & E315).
  unfold lgaBand14, lgaBand27.
  rewrite E44, E45, E134, E135, E224, E225, E259, E260, E314, E315.
  clear E44 E45 E134 E135 E224 E225 E259 E260 E314 E315.
  rewrite !leb_degrees, !geb_degrees.
  split.
  - destruct (Z.leb_spec 315 d), (Z.leb_spec d 44); cbn [orb]; try discriminate.
    destruct (Z.leb_spec 45 d), (Z.leb_spec d 134); cbn [andb]; try discriminate;
    destruct (Z.leb_spec 135 d), (Z.leb_spec d 259); cbn [andb]; try discriminate;
    destruct (Z.leb_spec 260 d), (Z.leb_spec d 314); cbn [andb]; try discriminate; lia.
  - destruct (Z.leb_spec 315 d), (Z.leb_spec d 44); cbn [orb]; try discriminate.
    destruct (Z.leb_spec 45 d), (Z.leb_spec d 134); cbn [andb]; try discriminate;
    destruct (Z.leb_spec 135 d), (Z.leb_spec d 224); cbn [andb]; try discriminate;
    destruct (Z.leb_spec 225 d), (Z.leb_spec d 314); cbn [andb]; try discriminate; lia.
Qed.

(** C10 (as amended).  For every direction text that is not empty and is
    "VRB" (in either case) or reads as a finite number, and every finite
    wind speed, both decision trees answer a configuration that is not
    empty.  For a whole number of degrees from 0 to 359 the sectors of
    each of LaGuardia's two speed bands hold the direction. *)
Theorem suggestedConfig_total (rawDir : string) (rawSpd : num) (rawCat : option string) :
  rawDir <> "" ->
  Num.isFinite rawSpd = true ->
  Str.toUpperCase rawDir = "VRB"
  \/ Num.isFinite (Num.Number (Some (Str.toUpperCase rawDir))) = true ->
  lgaSuggestedConfigFromInputs rawDir rawSpd rawCat <> ""
  /\ jfkSuggestedConfigFromInputs rawDir rawSpd <> ""
  /\ (forall d imc, 0 <= d <= 359 ->
        lgaBand14 (degrees d) imc <> None /\ lgaBand27 (degrees d) imc <> None).
Proof.
  intros Hdir%isEmpty_false_iff Hspd Hvalid.
  split; [|split; [|intros d imc; apply bands_cover]].
  - unfold lgaSuggestedConfigFromInputs. rewrite Hdir, Hspd. cbn [negb orb].
    destruct (String.eqb_spec (Str.toUpperCase rawDir) "VRB") as [E|E]; [discriminate|].
    destruct Hvalid as [Hv|Hv]; [contradiction|]. rewrite Hv. cbn [negb].
    destruct (Num.leb rawSpd (numLit 4)); [discriminate|].
    destruct (Num.leb rawSpd (numLit 14)).
    + destruct (lgaBand14 _ _) as [s|] eqn:E14; [exact (lgaBand14_nonempty _ _ _ E14)|].
      destruct (Num.leb rawSpd (numLit 27)); [|apply lgaStrong_nonempty].
      destruct (lgaBand27 _ _) as [s|] eqn:E27;
        [exact (lgaBand27_nonempty _ _ _ E27)|apply lgaStrong_nonempty].
    + destruct (Num.leb rawSpd (numLit 27)); [|apply lgaStrong_nonempty].
      destruct (lgaBand27 _ _) as [s|] eqn:E27;
        [exact (lgaBand27_nonempty _ _ _ E27)|apply lgaStrong_nonempty].
  - unfold jfkSuggestedConfigFromInputs. rewrite Hdir, Hspd. cbn [negb orb].
    destruct (String.eqb_spec (Str.toUpperCase rawDir) "VRB") as [E|E];
      cbn [orb]; [discriminate|].
    destruct (Num.leb rawSpd (numLit 4)); [discriminate|].
    destruct Hvalid as [Hv|Hv]; [contradiction|]. rewrite Hv. cbn [negb].
    destruct (Num.leb _ (numLit 99)); [discriminate|].
    destruct (Num.leb _ (numLit 159)); [discriminate|].
    destruct (Num.leb _ (numLit 259)); discriminate.
Qed.

Lemma suggestedConfig_total_witness :
  lgaSuggestedConfigFromInputs "040" (numLit 12) (Some "IFR") = "Depart 4, Land LOC 31"
  /\ lgaSuggestedConfigFromInputs "040" (numLit 12) (Some "IFR") <> ""
  /\ jfkSuggestedConfigFromInputs "040" (numLit 12) <> "".
Proof.
  split; [vm_compute; reflexivity|].
  pose proof (suggestedConfig_total "040" (numLit 12) (Some "IFR")
                ltac:(discriminate) ltac:(vm_compute; reflexivity)
                ltac:(right; vm_compute; reflexivity)) as (H1 & H2 & _).
  split; assumption.
Defined.

(** C10 as stated fails for the empty direction text: it reads as the
    number zero, yet both trees answer the empty text for it.  And a
    direction between two whole degrees lies in no sector of a band: at 10
    knots, 44.5 degrees falls out of both bands and gets the strong-wind
    answer. *)
Lemma suggestedConfig_counterexample :
  (Num.isFinite (Num.Number (Some (Str.toUpperCase ""))) = true
   /\ Num.isFinite (numLit 10) = true
   /\ lgaSuggestedConfigFromInputs "" (numLit 10) (Some "VFR") = ""
   /\ jfkSuggestedConfigFromInputs "" (numLit 10) = "")
  /\ (Num.isFinite (Num.Number (Some "44.5")) = true
      /\ lgaBand14 (reduce360 (Num.Number (Some "44.5"))) false = None
      /\ lgaBand27 (reduce360 (Num.Number (Some "44.5"))) false = None
      /\ lgaSuggestedConfigFromInputs "44.5" (numLit 10) (Some "VFR")
         = "Depart 4, Land ILS 4").
Proof. vm_compute. repeat split. Qed.

(** ** The conditional parts of C5 and C7 at sample inputs *)

Lemma flightCategory_bands_witness :
  cat (flightCategory (Some metarCeiling500)) = "IFR"
  /\ cat (flightCategory (Some metarVisibility3)) = "MVFR".
Proof.
  split.
  - apply (proj1 (proj2 (flightCategory_bands (Some metarCeiling500)))).
    + reflexivity.
    + vm_compute. reflexivity.
    + intros (k & Hk & Hlt). vm_compute in Hk. injection Hk as <-.
      vm_compute in Hlt. discriminate.
  - apply (proj1 (proj2 (proj2 (flightCategory_bands (Some metarVisibility3))))).
    + reflexivity.
    + vm_compute. reflexivity.
    + intros (k & Hk & Hlt). vm_compute in Hk. discriminate.
Defined.


(** * Further properties of the code *)

(** ** The rule engine without assumptions on the table *)

Lemma head_In {A} (l : list A) x : head l = Some x -> In x l.
Proof. destruct l; simpl; [discriminate|]. intros [= ->]. now left. Qed.

Lemma sort_nil_inv {A} (f : A -> A -> num) l : sort f l = [] -> l = [].
Proof.
  destruct l as [|x l]; [reflexivity|]. intros H. exfalso.
  assert (Hin : In x (sort f (x :: l))) by (apply (sort_In f); now left).
  rewrite H in Hin. destruct Hin.
Qed.

(** Whatever the priorities are, the rule returned is a row of the table
    that satisfies all seven predicates, and nothing is returned exactly
    when no row satisfies them. *)
Theorem pickDepartureRule_sound (t : Tables) (inputs : Inputs) :
  match pickDepartureRule t inputs with
  | Some r => In r (depRulesRows t) /\ satisfies inputs r = true
  | None => forall r, In r (depRulesRows t) -> satisfies inputs r = false
  end.
Proof.
  rewrite pick_unfold.
  destruct (head (sort byPriority (List.filter (satisfies inputs) (depRulesRows t))))
    as [r|] eqn:Hh.
  - apply head_In, (sort_In byPriority), List.filter_In in Hh. exact Hh.
  - intros r Hr. destruct (satisfies inputs r) eqn:Hs; [|reflexivity]. exfalso.
    assert (Hin : In r (List.filter (satisfies inputs) (depRulesRows t)))
      by (apply List.filter_In; auto).
    destruct (sort byPriority (List.filter (satisfies inputs) (depRulesRows t))) eqn:Hsort;
      [|discriminate].
    apply sort_nil_inv in Hsort. rewrite Hsort in Hin. destruct Hin.
Qed.

(** ** Blank inputs and wildcards *)

Lemma isEmpty_true_iff s : Str.isEmpty s = true <-> s = "".
Proof. destruct s; simpl; split; congruence. Qed.


Lemma matchAirspace_blank_input ruleVal inputVal :
  norm inputVal = "" -> matchAirspace ruleVal inputVal = isWildcard (norm ruleVal).
Proof.
  intros Hv. unfold matchAirspace, isWildcard. rewrite Hv.
  destruct (_ || _); reflexivity.
Qed.


Lemma trimStart_idem s : Str.trimStart (Str.trimStart s) = Str.trimStart s.
Proof.
  induction s as [|c s IH]; simpl; [reflexivity|].
  destruct (Str.isWhiteSpace c) eqn:E; [exact IH|]. simpl. now rewrite E.
Qed.

Lemma trimEnd_idem s : Str.trimEnd (Str.trimEnd s) = Str.trimEnd s.
Proof.
  induction s as [|c s IH]; simpl; [reflexivity|].
  destruct (Str.isWhiteSpace c && Str.isEmpty (Str.trimEnd s)) eqn:E; [reflexivity|].
  simpl. rewrite IH, E. reflexivity.
Qed.

Lemma trimStart_trimEnd s :
  Str.trimStart (Str.trimEnd s) = Str.trimEnd (Str.trimStart s).
Proof.
  induction s as [|c s IH]; simpl; [reflexivity|].
  destruct (Str.isWhiteSpace c) eqn:Ec; simpl.
  - destruct (Str.isEmpty (Str.trimEnd s)) eqn:Ee; simpl.
    + apply isEmpty_true_iff in Ee. rewrite <- IH, Ee. reflexivity.
    + rewrite Ec. exact IH.
  - rewrite ?Ec. simpl. rewrite ?Ec. reflexivity.
Qed.

Lemma trim_idem s : Str.trim (Str.trim s) = Str.trim s.
Proof.
  unfold Str.trim. rewrite trimStart_trimEnd, trimStart_idem, trimEnd_idem. reflexivity.
Qed.

Lemma norm_norm v : norm (Some (norm v)) = norm v.
Proof. unfold norm. simpl. apply trim_idem. Qed.



(** ** Escaping *)

Lemma replaceAllChar_app c by_ a b :
  replaceAllChar c by_ (a ++ b) = replaceAllChar c by_ a ++ replaceAllChar c by_ b.
Proof.
  induction a as [|x a IH]; simpl; [reflexivity|].
  destruct (Ascii.eqb x c); rewrite IH; [|reflexivity].
  now rewrite sapp_assoc.
Qed.

Lemma escHtml_app a b : escHtml (Some (a ++ b)) = escHtml (Some a) ++ escHtml (Some b).
Proof. unfold escHtml. simpl default. now rewrite !replaceAllChar_app. Qed.

Lemma escHtml_char c : escHtml (Some (String c "")) = escapeChar c.
Proof.
  destruct c as [[] [] [] [] [] [] [] []]; vm_compute; reflexivity.
Qed.

Lemma escHtml_escapeEach s : escHtml (Some s) = escapeEach s.
Proof.
  induction s as [|c s IH]; [reflexivity|].
  change (String c s) with (String c "" ++ s).
  rewrite escHtml_app, escHtml_char, IH. reflexivity.
Qed.

Lemma escapeChar_no_markup c :
  Str.allChars (fun x => negb (isMarkupChar x)) (escapeChar c) = true.
Proof.
  destruct c as [[] [] [] [] [] [] [] []]; vm_compute; reflexivity.
Qed.

(** The five replacements of [escHtml] do not disturb one another: the
    result is the text with each of [&], [<], [>], the double quote and
    the apostrophe replaced once by its entity and every other character
    kept.  None of [<], [>], the double quote and the apostrophe is left
    in it.  An absent value is escaped to the empty text. *)
Theorem escHtml_no_markup (s : string) :
  escHtml (Some s) = escapeEach s
  /\ Str.allChars (fun c => negb (isMarkupChar c)) (escHtml (Some s)) = true
  /\ escHtml None = "".
Proof.
  split; [apply escHtml_escapeEach|]. split; [|reflexivity].
  rewrite escHtml_escapeEach.
  induction s as [|c s IH]; [reflexivity|].
  simpl. rewrite allChars_app, escapeChar_no_markup, IH. reflexivity.
Qed.

Lemma unescape_escapeChar fuel c r :
  unescape (S fuel) (escapeChar c ++ r) = String c (unescape fuel r).
Proof.
  destruct c as [[] [] [] [] [] [] [] []]; reflexivity.
Qed.

Lemma unescape_escapeEach s fuel :
  (String.length s <= fuel)%nat -> unescape fuel (escapeEach s) = s.
Proof.
  revert fuel. induction s as [|c s IH]; intros fuel Hf.
  - destruct fuel; reflexivity.
  - destruct fuel as [|fuel]; [simpl in Hf; lia|].
    cbn [escapeEach]. rewrite unescape_escapeChar, IH; [reflexivity|].
    simpl in Hf. lia.
Qed.

Lemma escapeEach_length s : (String.length s <= String.length (escapeEach s))%nat.
Proof.
  induction s as [|c s IH]; simpl; [lia|].
  rewrite slength_app.
  assert (1 <= String.length (escapeChar c))%nat; [|lia].
  destruct c as [[] [] [] [] [] [] [] []]; vm_compute; lia.
Qed.

(** Escaping loses nothing: reading the five entities back gives the
    text that was escaped, so two different texts are never escaped to
    the same one. *)
Theorem escHtml_round_trip (s : string) :
  unescape (String.length (escHtml (Some s))) (escHtml (Some s)) = s
  /\ forall s', escHtml (Some s') = escHtml (Some s) -> s' = s.
Proof.
  assert (H : forall x, unescape (String.length (escHtml (Some x))) (escHtml (Some x)) = x).
  { intros x. rewrite escHtml_escapeEach. apply unescape_escapeEach, escapeEach_length. }
  split; [apply H|].
  intros s' E. rewrite <- (H s'), E. apply H.
Qed.

(** ** Tables from text *)

Lemma setCell_lookup obj h v k :
  setCell obj h v !! k =
    if String.eqb h "__proto__" then obj !! k
    else if String.eqb h k then Some v else obj !! k.
Proof.
  unfold setCell. destruct (String.eqb h "__proto__"); [reflexivity|].
  destruct (String.eqb_spec h k) as [->|Hne].
  - apply lookup_insert_eq.
  - now apply lookup_insert_ne.
Qed.

Lemma forEachHeader_dom cols headers : forall i obj k,
  is_Some (forEachHeader cols i headers obj !! k)
  <-> is_Some (obj !! k) \/ (In k headers /\ k <> "__proto__").
Proof.
  induction headers as [|h hs IH]; intros i obj k; simpl.
  - split; [auto|]. intros [H|[[] _]]. exact H.
  - rewrite IH, setCell_lookup.
    destruct (String.eqb_spec h "__proto__") as [->|Hp].
    + split; [intros [H|[H1 H2]]; auto|].
      intros [H|[[<-|H1] H2]]; auto. contradiction.
    + destruct (String.eqb_spec h k) as [<-|Hk].
      * split; [intros _; right; auto|]. intros _. left. eexists; reflexivity.
      * split; [intros [H|[H1 H2]]; auto|].
        intros [H|[[E|H1] H2]]; auto. contradiction.
Qed.

Lemma forEachHeader_trimmed cols headers : forall i obj,
  (forall k v, obj !! k = Some v -> Str.trim v = v) ->
  forall k v, forEachHeader cols i headers obj !! k = Some v -> Str.trim v = v.
Proof.
  induction headers as [|h hs IH]; intros i obj Hobj k v; simpl; [apply Hobj|].
  apply IH. intros k' v'. rewrite setCell_lookup.
  destruct (String.eqb h "__proto__"); [apply Hobj|].
  destruct (String.eqb h k'); [|apply Hobj].
  intros [= <-]. apply trim_idem.
Qed.

Lemma forEachHeader_keep cols headers : forall i obj k,
  ~ In k headers -> forEachHeader cols i headers obj !! k = obj !! k.
Proof.
  induction headers as [|h hs IH]; intros i obj k Hk; simpl; [reflexivity|].
  rewrite IH by (intros H; apply Hk; now right).
  rewrite setCell_lookup.
  destruct (String.eqb h "__proto__"); [reflexivity|].
  destruct (String.eqb_spec h k) as [->|Hne]; [|reflexivity].
  exfalso. apply Hk. now left.
Qed.

Lemma forEachHeader_cell cols headers : forall i obj j h,
  headers !! j = Some h ->
  (forall j', (j < j')%nat -> headers !! j' <> Some h) ->
  h <> "__proto__" ->
  forEachHeader cols i headers obj !! h
  = Some (Str.trim (default "" (cols !! (i + j)%nat))).
Proof.
  induction headers as [|h0 hs IH]; intros i obj j h Hj Hlast Hp; [discriminate|].
  destruct j as [|j]; simpl in Hj.
  - injection Hj as ->. simpl.
    rewrite forEachHeader_keep.
    + rewrite setCell_lookup.
      destruct (String.eqb_spec h "__proto__") as [E|_]; [contradiction|].
      rewrite String.eqb_refl, Nat.add_0_r. reflexivity.
    + intros Hin. apply list_elem_of_In, list_elem_of_lookup in Hin as [j' Hj'].
      apply (Hlast (S j')); [lia|exact Hj'].
  - simpl. rewrite (IH (S i) _ j h Hj); [|intros j' Hlt; apply (Hlast (S j')); lia|exact Hp].
    do 4 f_equal. lia.
Qed.

(** The records that [parseTSV] makes: there is one for each non-blank
    line after the first; each has a cell for every column name of the
    header line (apart from [__proto__], which names no cell) and for
    nothing else; and every cell is trimmed, so that [norm] leaves it as
    it is. *)
Theorem parseTSV_records (tsvText : string) :
  let headers :=
    match tsvLines tsvText with [] => [] | first :: _ => tsvHeaders first end in
  length (parseTSV tsvText) = Nat.pred (length (tsvLines tsvText))
  /\ Forall (fun row : Row =>
        (forall h, is_Some (row !! h) <-> In h headers /\ h <> "__proto__")
        /\ (forall h v, row !! h = Some v -> norm (Some v) = v))
       (parseTSV tsvText).
Proof.
  cbv zeta. unfold parseTSV. destruct (tsvLines tsvText) as [|first others].
  - split; [reflexivity|constructor].
  - split; [simpl; now rewrite length_map|].
    apply List.Forall_forall. intros row Hrow.
    apply List.in_map_iff in Hrow as (line & <- & _).
    unfold tsvRecord. split.
    + intros h. rewrite forEachHeader_dom. rewrite lookup_empty.
      split; [intros [[? [=]]|H]; exact H|auto].
    + intros h v. unfold norm. simpl default.
      apply forEachHeader_trimmed. intros k v'. rewrite lookup_empty. discriminate.
Qed.

(** A cell of a record holds the trimmed text of the column that stands
    where the last header of that name stands, and the empty text when the
    line has no such column. *)
Theorem tsvRecord_cell (headers : list string) (line : string) (j : nat) (h : string) :
  headers !! j = Some h ->
  (forall j', (j < j')%nat -> headers !! j' <> Some h) ->
  h <> "__proto__" ->
  tsvRecord headers line !! h
  = Some (Str.trim (default "" (splitChar TAB "" line !! j))).
Proof.
  intros Hj Hlast Hp. unfold tsvRecord.
  rewrite (forEachHeader_cell _ _ 0%nat _ j h Hj Hlast Hp). reflexivity.
Qed.

Lemma tsvRecord_cell_witness :
  tsvRecord ["ident"; "name"; "ident"] ("KLGA" ++ String TAB " La Guardia ") !! "name"
    = Some "La Guardia"
  /\ tsvRecord ["ident"; "name"; "ident"] ("KLGA" ++ String TAB " La Guardia ") !! "ident"
    = Some "".
Proof.
  split.
  - rewrite (tsvRecord_cell ["ident"; "name"; "ident"] _ 1%nat "name").
    + reflexivity.
    + reflexivity.
    + intros [|[|[|j']]] Hlt; try lia; simpl; discriminate.
    + discriminate.
  - rewrite (tsvRecord_cell ["ident"; "name"; "ident"] _ 2%nat "ident").
    + reflexivity.
    + reflexivity.
    + intros [|[|[|j']]] Hlt; try lia; simpl; discriminate.
    + discriminate.
Defined.

(** ** Routes *)

Lemma upperChar_idem c : Str.upperChar (Str.upperChar c) = Str.upperChar c.
Proof. destruct c as [[] [] [] [] [] [] [] []]; reflexivity. Qed.

Lemma upper_idem s : Str.toUpperCase (Str.toUpperCase s) = Str.toUpperCase s.
Proof. induction s as [|c s IH]; simpl; [reflexivity|]. now rewrite upperChar_idem, IH. Qed.

Lemma norm_upper_norm v :
  Str.toUpperCase (norm (Some (Str.toUpperCase (norm v)))) = Str.toUpperCase (norm v).
Proof.
  unfold norm at 1. simpl default. rewrite trim_upper. unfold norm.
  rewrite trim_idem, upper_idem. reflexivity.
Qed.



(** ** The airport and navaid indices *)

Lemma fold_addAirport_lookup rows : forall st ident,
  airportByIdent (fold_left addAirport rows st) !! ident =
    match airportByIdent st !! ident with
    | Some a => Some a
    | None => airportOf ident <$> head (rowsOf ident rows)
    end.
Proof.
  induction rows as [|r rows IH]; intros st ident; simpl.
  - destruct (airportByIdent st !! ident); [reflexivity|].
    unfold rowsOf. destruct (Str.isEmpty ident); reflexivity.
  - rewrite IH. unfold addAirport. fold (identOf r).
    unfold rowsOf. cbn [List.filter].
    destruct (Str.isEmpty (identOf r)) eqn:He.
    + destruct (airportByIdent st !! ident); [reflexivity|].
      destruct (Str.isEmpty ident) eqn:Hid; [reflexivity|].
      destruct (String.eqb_spec (identOf r) ident) as [E|_]; [|reflexivity].
      congruence.
    + cbn [airportByIdent].
      destruct (String.eqb_spec (identOf r) ident) as [<-|Hne].
      * rewrite He. destruct (airportByIdent st !! identOf r) as [a|] eqn:Ha.
        -- rewrite Ha. reflexivity.
        -- rewrite lookup_insert_eq. reflexivity.
      * destruct (airportByIdent st !! identOf r) as [a|] eqn:Ha; [reflexivity|].
        rewrite lookup_insert_ne by exact Hne. reflexivity.
Qed.

Lemma fold_addAirport_index rows : forall st,
  airportSearchIndex (fold_left addAirport rows st)
  = (airportSearchIndex st ++ List.map airportEntryOf (identified rows))%list.
Proof.
  induction rows as [|r rows IH]; intros st; simpl.
  - now rewrite app_nil_r.
  - rewrite IH. unfold addAirport, identified. fold (identOf r). cbn [List.filter].
    destruct (Str.isEmpty (identOf r)); cbn [negb]; [reflexivity|].
    cbn [airportSearchIndex List.map]. rewrite <- app_assoc. reflexivity.
Qed.

(** Of several airport rows with one identifier the first is the one
    that a lookup by identifier finds, while the search list keeps an
    entry for every row that has an identifier. *)
Theorem buildAirportMaps_first_row (host : Host) (rows : list Row) (ident : string) :
  airportByIdent (buildAirportMaps host rows) !! ident
    = airportOf ident <$> head (rowsOf ident rows)
  /\ airportSearchIndex (buildAirportMaps host rows)
    = sort (byIdent host) (List.map airportEntryOf (identified rows)).
Proof.
  unfold buildAirportMaps. cbn [airportByIdent airportSearchIndex].
  rewrite fold_addAirport_lookup, fold_addAirport_index. split; reflexivity.
Qed.

Lemma fold_addNavaid_group host rows : forall st ident,
  navaidByIdent (fold_left (addNavaid host) rows st) !! ident =
    match navaidByIdent st !! ident, rowsOf ident rows with
    | None, [] => None
    | g, rs => Some (default [] g ++ List.map (navaidOf host ident) rs)%list
    end.
Proof.
  induction rows as [|r rows IH]; intros st ident; simpl.
  - unfold rowsOf. destruct (navaidByIdent st !! ident) as [g|]; simpl.
    + destruct (Str.isEmpty ident); simpl; now rewrite app_nil_r.
    + destruct (Str.isEmpty ident); reflexivity.
  - rewrite IH. unfold addNavaid. fold (identOf r).
    unfold rowsOf. cbn [List.filter].
    destruct (Str.isEmpty (identOf r)) eqn:He.
    + destruct (Str.isEmpty ident) eqn:Hid; [reflexivity|].
      destruct (String.eqb_spec (identOf r) ident) as [E|_]; [congruence|reflexivity].
    + cbn [navaidByIdent].
      destruct (String.eqb_spec (identOf r) ident) as [<-|Hne].
      * rewrite He, lookup_insert_eq.
        destruct (navaidByIdent st !! identOf r); simpl;
          rewrite <- ?app_assoc; reflexivity.
      * rewrite lookup_insert_ne by exact Hne. reflexivity.
Qed.

Lemma fold_addNavaid_index host rows : forall st,
  navaidSearchIndex (fold_left (addNavaid host) rows st)
  = (navaidSearchIndex st ++ List.map (searchEntryOf host) (identified rows))%list.
Proof.
  induction rows as [|r rows IH]; intros st; simpl.
  - now rewrite app_nil_r.
  - rewrite IH. unfold addNavaid, identified. fold (identOf r). cbn [List.filter].
    destruct (Str.isEmpty (identOf r)); cbn [negb]; [reflexivity|].
    cbn [navaidSearchIndex List.map]. rewrite <- app_assoc. reflexivity.
Qed.

(** A lookup of a navaid identifier finds nothing when no row has the
    identifier, and otherwise the records of all the rows that have it,
    sorted from their order in the table; the search list is the sorted
    list of the entries of all rows that have an identifier. *)
Theorem buildNavaidMaps_groups (host : Host) (rows : list Row) (ident : string) :
  navaidByIdent (buildNavaidMaps host rows) !! ident
    = match rowsOf ident rows with
      | [] => None
      | rs => Some (sort (byDistanceThenName host) (List.map (navaidOf host ident) rs))
      end
  /\ navaidSearchIndex (buildNavaidMaps host rows)
    = sort (byDistanceThenIdent host) (List.map (searchEntryOf host) (identified rows)).
Proof.
  unfold buildNavaidMaps. cbn [navaidByIdent navaidSearchIndex].
  rewrite lookup_fmap, fold_addNavaid_group, fold_addNavaid_index.
  cbn [navaidByIdent navaidSearchIndex]. rewrite lookup_empty.
  split; [|reflexivity].
  destruct (rowsOf ident rows); reflexivity.
Qed.

(** ** The unified search *)

Lemma firstn_app_short {A} n (l l' : list A) :
  (n <= length l)%nat -> firstn n (l ++ l') = firstn n l.
Proof.
  intros H. rewrite List.firstn_app.
  replace (n - length l)%nat with 0%nat by lia. simpl. now rewrite app_nil_r.
Qed.

Lemma collectHits_firstn {A B} (inj : A -> B) keyOf query index : forall hits,
  (length hits < 50)%nat ->
  collectHits inj keyOf query index hits
  = firstn 50
      (hits ++ List.map inj (List.filter (fun v => Str.includes (keyOf v) query) index)).
Proof.
  induction index as [|v index IH]; intros hits Hlen; cbn [collectHits List.filter].
  - cbn [List.map]. rewrite app_nil_r, List.firstn_all2; [reflexivity|lia].
  - destruct (Str.includes (keyOf v) query); [|now apply IH].
    cbn [List.map].
    replace (hits ++ inj v :: List.map inj
               (List.filter (fun v0 => Str.includes (keyOf v0) query) index))%list
      with ((hits ++ [inj v]) ++ List.map inj
               (List.filter (fun v0 => Str.includes (keyOf v0) query) index))%list
      by (rewrite <- app_assoc; reflexivity).
    assert (Hl : length (hits ++ [inj v]) = S (length hits))
      by (rewrite length_app; simpl; lia).
    destruct (Nat.leb_spec 50 (length (hits ++ [inj v]))) as [Hge|Hlt].
    + rewrite firstn_app_short by exact Hge.
      rewrite List.firstn_all2; [reflexivity|lia].
    + apply IH. exact Hlt.
Qed.

(** A blank query clears the result list.  Otherwise the hits are the
    entries whose key holds the query, trimmed and in upper case: the
    navaids in the order of their search list, then the airports in the
    order of theirs, cut after the first fifty. *)
Theorem searchHits_spec (m : NavaidMaps) (a : AirportMaps) (q : option string) :
  let query := Str.toUpperCase (norm q) in
  searchHits m a q =
    if Str.isEmpty (norm q) then None
    else Some (firstn 50
           (List.map inl
              (List.filter (fun v => Str.includes (key v) query) (navaidSearchIndex m))
            ++ List.map inr
              (List.filter (fun v => Str.includes (airportKey v) query)
                 (airportSearchIndex a)))).
Proof.
  cbv zeta. unfold searchHits. rewrite isEmpty_upper.
  destruct (Str.isEmpty (norm q)); [reflexivity|]. f_equal.
  rewrite (collectHits_firstn inl key _ _ []) by (simpl; lia). cbn [app].
  set (nav := List.map inl _).
  set (apt := List.filter _ (airportSearchIndex a)).
  destruct (Nat.ltb_spec (length (firstn 50 nav)) 50) as [Hlt|Hge].
  - assert (Hall : firstn 50 nav = nav).
    { apply List.firstn_all2. rewrite List.length_firstn in Hlt. lia. }
    rewrite Hall. apply collectHits_firstn. now rewrite <- Hall.
  - rewrite List.length_firstn in Hge. symmetry. apply firstn_app_short. lia.
Qed.

(** ** Watch lists *)












Lemma defaults_normalised :
  Forall isNormalised ["KLGA"; "KJFK"; "KEWR"; "KTEB"]
  /\ Forall isNormalised ["LGA"; "JFK"; "EWR"].
Proof.
  split; repeat constructor; discriminate.
Qed.

Lemma loadWatchlist_normalised defaults stored :
  defaults <> [] -> Forall isNormalised defaults ->
  loadWatchlist defaults stored <> []
  /\ Forall isNormalised (loadWatchlist defaults stored).
Proof.
  intros Hne Hd. unfold loadWatchlist.
  destruct stored as [arr|]; [|split; assumption].
  destruct (List.filter _ _) as [|x l] eqn:Hf; [split; assumption|].
  split; [discriminate|]. rewrite <- Hf.
  apply List.Forall_forall. intros y Hy.
  apply List.filter_In in Hy as [Hy Hne'].
  apply List.in_map_iff in Hy as (z & <- & _).
  split.
  - apply isEmpty_false_iff. now destruct (Str.isEmpty _).
  - apply norm_upper_norm.
Qed.

(** Whatever the browser has stored, the watch list that either loader
    leaves is not empty, and each of its entries is a non-empty text in
    trimmed upper-case form. *)
Theorem loadWatchlist_never_empty (stored : option (list (option string))) :
  loadWxWatchlist stored <> [] /\ Forall isNormalised (loadWxWatchlist stored)
  /\ loadRvrWatchlist stored <> [] /\ Forall isNormalised (loadRvrWatchlist stored).
Proof.
  destruct defaults_normalised as [Hwx Hrvr].
  unfold loadWxWatchlist, loadRvrWatchlist.
  destruct (loadWatchlist_normalised ["KLGA"; "KJFK"; "KEWR"; "KTEB"] stored) as [H1 H2];
    [discriminate|exact Hwx|].
  destruct (loadWatchlist_normalised ["LGA"; "JFK"; "EWR"] stored) as [H3 H4];
    [discriminate|exact Hrvr|].
  repeat split; assumption.
Qed.

(** ** The weather panel *)

Lemma trimStart_not_ws c s :
  Str.isWhiteSpace c = false -> Str.trimStart (String c s) = String c s.
Proof. intros H. simpl. now rewrite H. Qed.

Lemma trim_nonblank a c b :
  Str.isWhiteSpace c = false -> Str.trim (a ++ String c b) <> "".
Proof.
  intros Hc. unfold Str.trim.
  assert (H : exists x r, Str.trimStart (a ++ String c b) = String x r
                          /\ Str.isWhiteSpace x = false).
  { induction a as [|y a IH]; simpl.
    - rewrite Hc. eauto.
    - destruct (Str.isWhiteSpace y) eqn:Hy; [exact IH|eauto]. }
  destruct H as (x & r & -> & Hx). simpl. rewrite Hx. discriminate.
Qed.

Lemma reportLines_nonblank text l :
  In l (reportLines text) -> norm (Some l) = l /\ l <> "".
Proof.
  unfold reportLines. intros [Hl Hne]%List.filter_In.
  apply List.in_map_iff in Hl as (x & <- & _). split.
  - apply trim_idem.
  - apply isEmpty_false_iff. now destruct (Str.isEmpty _).
Qed.

Lemma fetchVatsimMetar_nonblank icao res out :
  fetchVatsimMetar icao res = inl out -> norm (Some out) <> "".
Proof.
  unfold fetchVatsimMetar. destruct (ok res); cbn [negb]; [|discriminate].
  destruct (List.find _ _) as [l|] eqn:Hf.
  - intros [= <-]. apply List.find_some in Hf as [Hin _].
    apply reportLines_nonblank in Hin as [-> Hne]. exact Hne.
  - destruct (reportLines (body res)) as [|l rest] eqn:Hl.
    + intros [= <-]. unfold norm. simpl default.
      change (Str.toUpperCase (Str.trim (default "" icao)) ++ " (no METAR)")
        with (Str.toUpperCase (Str.trim (default "" icao)) ++ String " " "(no METAR)").
      rewrite <- (sapp_assoc _ " " "(no METAR)").
      apply trim_nonblank. reflexivity.
    + intros [= <-].
      assert (Hin : In l (reportLines (body res))) by (rewrite Hl; now left).
      apply reportLines_nonblank in Hin as [-> Hne]. exact Hne.
Qed.

(** The report recorded for a station is never blank, whether it was
    fetched, made up for a response without lines, or stands for a failed
    request; so the category printed beside it is always one of LIFR, IFR,
    MVFR and VFR and never the dash of a blank report. *)
Theorem wxReport_category (icao : string) (res : Response) :
  norm (Some (wxReport icao res)) <> ""
  /\ exists c, renderedCategory (Some (wxReport icao res)) = categoryName c.
Proof.
  assert (Hne : norm (Some (wxReport icao res)) <> "").
  { unfold wxReport. destruct (fetchVatsimMetar (Some icao) res) as [out|e] eqn:Hf.
    - exact (fetchVatsimMetar_nonblank _ _ _ Hf).
    - unfold norm. simpl default.
      change (icao ++ " (error)") with (icao ++ String " " "(error)").
      rewrite <- (sapp_assoc _ " " "(error)"). apply trim_nonblank. reflexivity. }
  split; [exact Hne|].
  unfold renderedCategory.
  destruct (flightCategory_inBand (Some (norm (Some (wxReport icao res))))) as (c & Hc & _).
  - rewrite norm_norm. now apply isEmpty_false_iff.
  - exists c. rewrite Hc. reflexivity.
Qed.

(** ** Airspace requirements: growing inputs and compound requirements *)

Lemma isSubstring_trans a b c : isSubstring a b -> isSubstring b c -> isSubstring a c.
Proof.
  intros (x & y & ->) (u & v & ->). exists (u ++ x), (y ++ v).
  now rewrite !sapp_assoc.
Qed.

Lemma isSubstring_nonempty a b : isSubstring a b -> a <> "" -> b <> "".
Proof.
  intros (x & y & ->) Ha E. destruct x; [|discriminate].
  destruct a; [congruence|discriminate].
Qed.

Lemma upper_nonempty s : s <> "" -> Str.toUpperCase s <> "".
Proof. destruct s; [congruence|discriminate]. Qed.

(** An input that holds another one (both trimmed and in upper case)
    satisfies every airspace requirement that the other satisfies:
    naming more airspace never makes a rule stop matching. *)
Theorem matchAirspace_monotone (ruleVal inputVal inputVal' : option string) :
  isSubstring (Str.toUpperCase (norm inputVal)) (Str.toUpperCase (norm inputVal')) ->
  matchAirspace ruleVal inputVal = true ->
  matchAirspace ruleVal inputVal' = true.
Proof.
  intros Hsub. unfold matchAirspace.
  destruct (String.eqb (norm ruleVal) "*" || String.eqb (norm ruleVal) ""); [reflexivity|].
  rewrite !eqb_empty.
  destruct (Str.isEmpty (norm inputVal)) eqn:Hv; [discriminate|].
  apply isEmpty_false_iff in Hv.
  assert (Hw : norm inputVal' <> "").
  { intros E. apply (isSubstring_nonempty _ _ Hsub); [now apply upper_nonempty|].
    now rewrite E. }
  apply isEmpty_false_iff in Hw. rewrite Hw.
  rewrite !forallb_forall. intros H part Hpart.
  apply includes_spec. eapply isSubstring_trans; [|exact Hsub].
  apply includes_spec. now apply H.
Qed.

Lemma matchAirspace_monotone_witness :
  matchAirspace (Some "n, s") (Some "N+S+E") = true.
Proof.
  apply (matchAirspace_monotone (Some "n, s") (Some " n+s ") (Some "N+S+E")).
  - exists "", "+E". reflexivity.
  - reflexivity.
Defined.

Lemma trimEnd_split s :
  exists w, s = Str.trimEnd s ++ w /\ Str.allChars Str.isWhiteSpace w = true.
Proof.
  induction s as [|c s (w & Hw & Hall)]; simpl.
  - now exists "".
  - destruct (Str.isWhiteSpace c) eqn:Hc; simpl.
    + destruct (Str.isEmpty (Str.trimEnd s)) eqn:He.
      * apply isEmpty_true_iff in He. rewrite He in Hw. simpl in Hw.
        exists (String c w). simpl. rewrite Hc, Hall. split; [congruence|reflexivity].
      * exists w. split; [simpl; congruence|assumption].
    + exists w. split; [simpl; congruence|assumption].
Qed.

Lemma splitOnSeparators_ws_end y w : forall acc,
  Str.allChars Str.isWhiteSpace w = true ->
  List.map Str.trim (splitOnSeparators acc (y ++ w))
  = List.map Str.trim (splitOnSeparators acc y).
Proof.
  induction y as [|c y IH]; intros acc Hw.
  - cbn [String.append].
    rewrite <- (sapp_nil_r w) at 1.
    rewrite splitOnSeparators_app by now apply allChars_ws_not_separator.
    simpl. now rewrite trim_app_ws_r.
  - simpl. destruct (isSeparatorChar c); simpl; now rewrite IH.
Qed.

Lemma requiredTokens_trim z : requiredTokens (Str.trim z) = requiredTokens z.
Proof.
  unfold requiredTokens, Str.trim.
  destruct (trimStart_split z) as (w & Hz & Hw).
  destruct (trimEnd_split (Str.trimStart z)) as (w' & Hz' & Hw').
  rewrite Hz at 2.
  rewrite splitOnSeparators_app by now apply allChars_ws_not_separator.
  cbn [String.append]. rewrite (splitOnSeparators_trim_ws w) by assumption.
  rewrite Hz' at 2. now rewrite splitOnSeparators_ws_end.
Qed.

Lemma splitOnSeparators_sep a sep b : forall acc,
  isSeparatorChar sep = true ->
  splitOnSeparators acc (a ++ String sep b)
  = (splitOnSeparators acc a ++ splitOnSeparators "" b)%list.
Proof.
  induction a as [|c a IH]; intros acc Hsep; simpl.
  - now rewrite Hsep.
  - destruct (isSeparatorChar c); simpl; now rewrite IH.
Qed.

Lemma reqParts_sep a sep b :
  isSeparatorChar sep = true ->
  reqParts (Str.trim (a ++ String sep b))
  = (reqParts (Str.trim a) ++ reqParts (Str.trim b))%list.
Proof.
  intros Hsep. rewrite !reqParts_requiredTokens, !requiredTokens_trim.
  unfold requiredTokens. rewrite splitOnSeparators_sep by assumption.
  now rewrite !List.map_app, List.filter_app.
Qed.

Lemma trimStart_app_not_ws a c b :
  Str.isWhiteSpace c = false ->
  Str.trimStart (a ++ String c b) = Str.trimStart a ++ String c b.
Proof.
  intros Hc. induction a as [|x a IH]; simpl; [now rewrite Hc|].
  destruct (Str.isWhiteSpace x); [exact IH|reflexivity].
Qed.

Lemma trimEnd_app_not_ws a c b :
  Str.isWhiteSpace c = false ->
  Str.trimEnd (a ++ String c b) = a ++ String c (Str.trimEnd b).
Proof.
  intros Hc. induction a as [|x a IH]; simpl.
  - rewrite Hc. reflexivity.
  - rewrite IH. destruct a; simpl; now rewrite andb_false_r.
Qed.

Lemma separator_not_ws c : isSeparatorChar c = true -> Str.isWhiteSpace c = false.
Proof.
  intros H. destruct (Str.isWhiteSpace c) eqn:E; [|reflexivity].
  apply ws_not_separator in E. congruence.
Qed.

Lemma compound_not_wildcard a sep b :
  isSeparatorChar sep = true -> isWildcard (Str.trim (a ++ String sep b)) = false.
Proof.
  intros Hsep. pose proof (separator_not_ws _ Hsep) as Hws.
  unfold Str.trim. rewrite trimStart_app_not_ws, trimEnd_app_not_ws by assumption.
  unfold isWildcard.
  destruct (Str.trimStart a) as [|x [|y r]]; simpl.
  - destruct sep as [[] [] [] [] [] [] [] []]; try discriminate; reflexivity.
  - destruct (Ascii.eqb x "*"); reflexivity.
  - destruct (Ascii.eqb x "*"); reflexivity.
Qed.

(** A requirement made of two requirements joined by one of [+], [,]
    and [&] is met exactly when both are met, so the order of the two does
    not matter.  (Each of the two is a requirement proper: not blank and
    not the wildcard.) *)
Theorem matchAirspace_compound (a b : string) (sep : ascii) (inputVal : option string) :
  isSeparatorChar sep = true ->
  isWildcard (norm (Some a)) = false ->
  isWildcard (norm (Some b)) = false ->
  matchAirspace (Some (a ++ String sep b)) inputVal
    = matchAirspace (Some a) inputVal && matchAirspace (Some b) inputVal
  /\ matchAirspace (Some (a ++ String sep b)) inputVal
    = matchAirspace (Some (b ++ String sep a)) inputVal.
Proof.
  intros Hsep Ha Hb.
  assert (H : forall x y, isWildcard (norm (Some x)) = false ->
            isWildcard (norm (Some y)) = false ->
            matchAirspace (Some (x ++ String sep y)) inputVal
            = matchAirspace (Some x) inputVal && matchAirspace (Some y) inputVal).
  { intros x y Hx Hy. unfold matchAirspace.
    pose proof (compound_not_wildcard x sep y Hsep) as Hc.
    unfold isWildcard, norm in *. simpl default in *. rewrite Hx, Hy, Hc.
    destruct (String.eqb (Str.trim (default "" inputVal)) ""); [reflexivity|].
    rewrite reqParts_sep by assumption. apply forallb_app. }
  split; [now apply H|]. rewrite !H by assumption. apply andb_comm.
Qed.

Lemma matchAirspace_compound_witness :
  matchAirspace (Some ("N " ++ String "+" " S")) (Some "S,N")
    = matchAirspace (Some "N ") (Some "S,N") && matchAirspace (Some " S") (Some "S,N")
  /\ matchAirspace (Some ("N " ++ String "+" " S")) (Some "S,N")
    = matchAirspace (Some (" S" ++ String "+" "N ")) (Some "S,N").
Proof.
  exact (matchAirspace_compound "N " " S" "+" (Some "S,N") eq_refl eq_refl eq_refl).
Defined.

Lemma splitOnSeparators_substring s : forall acc p,
  In p (splitOnSeparators acc s) -> isSubstring p (acc ++ s).
Proof.
  induction s as [|c s IH]; intros acc p; simpl.
  - intros [<-|[]]. exists "", "". reflexivity.
  - destruct (isSeparatorChar c).
    + intros [<-|Hin].
      * exists "", (String c s). reflexivity.
      * apply IH in Hin as (a & b & E). simpl in E.
        exists (acc ++ String c a), b. rewrite E, sapp_assoc. reflexivity.
    + intros Hin. apply IH in Hin. rewrite sapp_assoc in Hin. exact Hin.
Qed.

Lemma trim_substring p : isSubstring (Str.trim p) p.
Proof.
  unfold Str.trim. destruct (trimStart_split p) as (w & Hp & _).
  destruct (trimEnd_split (Str.trimStart p)) as (w' & Hp' & _).
  exists w, w'. rewrite <- Hp'. exact Hp.
Qed.

Lemma upper_substring a b :
  isSubstring a b -> isSubstring (Str.toUpperCase a) (Str.toUpperCase b).
Proof.
  intros (x & y & ->). exists (Str.toUpperCase x), (Str.toUpperCase y).
  now rewrite !upper_app.
Qed.

Lemma reqParts_substring r part :
  In part (reqParts r) -> isSubstring part (Str.toUpperCase r).
Proof.
  rewrite reqParts_requiredTokens. intros [Hin _]%List.filter_In.
  apply List.in_map_iff in Hin as (tok & <- & Htok).
  apply upper_substring. unfold requiredTokens in Htok.
  apply List.in_map_iff in Htok as (piece & <- & Hpiece).
  apply splitOnSeparators_substring in Hpiece.
  eapply isSubstring_trans; [apply trim_substring|exact Hpiece].
Qed.

(** A requirement that stands in the input as it is written (both
    trimmed, and without regard to letter case) is met; in particular an
    input equal to the rule value always meets it. *)
Theorem matchAirspace_verbatim (ruleVal inputVal : option string) :
  isSubstring (Str.toUpperCase (norm ruleVal)) (Str.toUpperCase (norm inputVal)) ->
  matchAirspace ruleVal inputVal = true.
Proof.
  intros Hsub. unfold matchAirspace.
  destruct (String.eqb (norm ruleVal) "*" || String.eqb (norm ruleVal) "") eqn:Ew;
    [reflexivity|].
  apply orb_false_iff in Ew as [_ Hne]. rewrite eqb_empty in Hne.
  apply isEmpty_false_iff in Hne.
  assert (Hv : norm inputVal <> "").
  { intros E. apply (isSubstring_nonempty _ _ Hsub); [now apply upper_nonempty|].
    now rewrite E. }
  rewrite eqb_empty. apply isEmpty_false_iff in Hv. rewrite Hv.
  apply forallb_forall. intros part Hpart. apply includes_spec.
  eapply isSubstring_trans; [|exact Hsub]. now apply reqParts_substring.
Qed.

Lemma matchAirspace_verbatim_witness :
  matchAirspace (Some " n+s ") (Some "JFK N+S ARR") = true.
Proof.
  apply matchAirspace_verbatim. exists "JFK ", " ARR". reflexivity.
Defined.

(** ** The climb instruction *)

Lemma run_Chr p st k :
  Re.run (Re.Chr p) st k =
  match Re.rest st with
  | String c t => if p c then k (Re.MState (Some c) t (Re.caps st)) else None
  | EmptyString => None
  end.
Proof. reflexivity. Qed.

Lemma sticky_plus_ws p s :
  Re.sticky (Re.Plus re_s) p s =
    match s with
    | String c t =>
        if Str.isWhiteSpace c
        then Some (Re.MState (prevAfter Str.isWhiteSpace (Some c) t)
                     (dropWhile Str.isWhiteSpace t) [])
        else None
    | EmptyString => None
    end.
Proof.
  unfold Re.sticky, Re.Plus, re_s. rewrite run_Seq, run_Chr.
  destruct s as [|c t]; [reflexivity|].
  cbn [Re.rest Re.caps]. destruct (Str.isWhiteSpace c); [|reflexivity].
  rewrite run_star_chr. cbn [Re.prev Re.rest Re.caps].
  apply star_chr_total. intros st. eexists; reflexivity.
Qed.

Lemma dropWhile_length p s : (String.length (dropWhile p s) <= String.length s)%nat.
Proof. induction s as [|c s IH]; simpl; [lia|]. destruct (p c); simpl; lia. Qed.

Lemma dotRuns_true s :
  dotRuns true s = dotRuns false (dropWhile Str.isWhiteSpace s).
Proof.
  induction s as [|c s IH]; simpl; [reflexivity|].
  destruct (Str.isWhiteSpace c) eqn:Hc; [exact IH|]. simpl. now rewrite Hc.
Qed.

Lemma replaceAll_from_ws fuel : forall p s,
  (String.length s < fuel)%nat ->
  Re.replaceAll_from (Re.Plus re_s) "." fuel p s = dotRuns false s.
Proof.
  induction fuel as [|fuel IH]; intros p s Hf; [lia|].
  cbn [Re.replaceAll_from]. rewrite sticky_plus_ws.
  destruct s as [|c t]; [reflexivity|]. cbn [dotRuns].
  destruct (Str.isWhiteSpace c).
  - cbn [Re.rest Re.prev]. pose proof (dropWhile_length Str.isWhiteSpace t) as Hd.
    replace (String.length (dropWhile Str.isWhiteSpace t) <? String.length (String c t))%nat
      with true by (symmetry; apply Nat.ltb_lt; simpl; lia).
    rewrite IH by (simpl in Hf; lia). rewrite dotRuns_true. reflexivity.
  - rewrite IH by (simpl in Hf; lia). reflexivity.
Qed.

Lemma includes_app_l s k x : Str.includes s (k ++ x) = true -> Str.includes s k = true.
Proof.
  rewrite !includes_spec. intros (a & b & ->). exists a, (x ++ b).
  now rewrite sapp_assoc.
Qed.

Lemma includes_or_suffix s k x :
  Str.includes s (k ++ x) || Str.includes s k = Str.includes s k.
Proof.
  destruct (Str.includes s (k ++ x)) eqn:E; [|reflexivity].
  simpl. symmetry. eapply includes_app_l; exact E.
Qed.

(** A procedure stands for a climb via the SID exactly when its text,
    trimmed, in upper case and with every run of white space replaced by
    one dot, holds one of seven names; the test for a name followed by [#]
    adds nothing, and a blank text holds none. *)
Theorem isClimbViaSid_spec (procStr : option string) :
  isClimbViaSidFromProcedure procStr
  = existsb (fun k => Str.includes (dotRuns false (Str.toUpperCase (norm procStr))) k)
      climbViaSidNames.
Proof.
  unfold isClimbViaSidFromProcedure, Re.replaceAll.
  rewrite replaceAll_from_ws by lia.
  destruct (Str.toUpperCase (norm procStr)) as [|c p] eqn:Ep; [reflexivity|].
  cbn [Str.isEmpty]. set (pNorm := dotRuns false (String c p)).
  unfold climbViaSidNames. cbn [existsb].
  rewrite !includes_or_suffix.
  destruct (Str.includes pNorm "LGA7.MASPETH"); [reflexivity|].
  destruct (Str.includes pNorm "LGA7.CONEY"); reflexivity.
Qed.

(** ** Selecting a navaid by index *)

Lemma round_pos_exact_q z e q :
  0 < z < 2 ^ 53 -> 0 <= e -> 0 < q ->
  Num.round_pos (z * 2 ^ e * q) q = z * 2 ^ e.
Proof.
  intros [Hz Hlt] He Hq. unfold Num.round_pos. rewrite Z.div_mul by lia.
  rewrite Z.log2_mul_pow2 by lia.
  assert (Hl : 0 <= Z.log2 z < 53).
  { split; [apply Z.log2_nonneg|]. apply Z.log2_lt_pow2; lia. }
  set (j := Z.max 0 (e + Z.log2 z - 52)).
  assert (Hj : 0 <= j <= e) by lia.
  replace e with ((e - j) + j) at 1 2 by lia.
  rewrite Z.pow_add_r by lia.
  assert (Hpow : 0 < 2 ^ j) by (apply Z.pow_pos_nonneg; lia).
  replace (z * (2 ^ (e - j) * 2 ^ j) * q) with (z * 2 ^ (e - j) * (q * 2 ^ j)) by ring.
  unfold Num.rne. rewrite Z.div_mul, Z.mod_mul by lia.
  replace (2 * 0 <? q * 2 ^ j) with true by (symmetry; apply Z.ltb_lt; nia).
  ring.
Qed.

Lemma round_pos_exact z e :
  0 < z < 2 ^ 53 -> 0 <= e -> Num.round_pos (z * 2 ^ e) 1 = z * 2 ^ e.
Proof.
  intros Hz He. rewrite <- (Z.mul_1_r (z * 2 ^ e)) at 1.
  apply round_pos_exact_q; lia.
Qed.

Lemma below_overflow z : 0 <= z < 2 ^ 53 -> z * Num.U < Num.overflow.
Proof.
  intros [H0 H1]. pose proof U_pos as HU.
  apply Z.lt_le_trans with (2 ^ 53 * Num.U).
  - apply Z.mul_lt_mono_pos_r; assumption.
  - unfold Num.U, Num.overflow. rewrite <- Z.pow_add_r by lia.
    apply Z.pow_le_mono_r; lia.
Qed.

(** The product of two whole numbers is exact when it is below [2^53]. *)
Lemma mul_whole a b :
  0 <= a -> 0 <= b -> a * b < 2 ^ 53 ->
  Num.mul (Num.Fin (a * Num.U)) (Num.Fin (b * Num.U)) = Num.Fin (a * b * Num.U).
Proof.
  intros Ha Hb Hab. pose proof U_pos as HU. cbn [Num.mul]. unfold Num.round.
  destruct (Z.eq_dec (a * b) 0) as [E|Hne].
  - replace (a * Num.U * (b * Num.U)) with 0 by nia. rewrite E. reflexivity.
  - assert (Hpos : 0 < a * b) by nia.
    replace (a * Num.U * (b * Num.U)) with (a * b * Num.U * Num.U) by ring.
    assert (Hp : 0 < a * b * Num.U * Num.U) by nia.
    rewrite Z.abs_eq by lia.
    assert (Hr : Num.round_pos (a * b * Num.U * Num.U) Num.U = a * b * Num.U).
    { unfold Num.U at 1 4. apply round_pos_exact_q; lia. }
    rewrite Hr.
    replace (Num.overflow <=? a * b * Num.U) with false
      by (symmetry; apply Z.leb_gt, below_overflow; lia).
    rewrite Z.sgn_pos by exact Hp. f_equal. lia.
Qed.

Lemma ofZ_exact z : 0 <= z < 2 ^ 53 -> Num.ofZ z = Num.Fin (z * Num.U).
Proof.
  intros [H0 H1]. destruct (Z.eq_dec z 0) as [->|Hz]; [reflexivity|].
  unfold Num.ofZ, Num.round. pose proof U_pos as HU.
  assert (Hpos : 0 < z * Num.U) by (apply Z.mul_pos_pos; lia).
  rewrite Z.abs_eq by lia.
  assert (Hr : Num.round_pos (z * Num.U) 1 = z * Num.U)
    by (unfold Num.U; apply round_pos_exact; lia).
  rewrite Hr.
  assert (Hov : z * Num.U < Num.overflow) by (apply below_overflow; lia).
  replace (Num.overflow <=? z * Num.U) with false by (symmetry; apply Z.leb_gt; exact Hov).
  rewrite Z.sgn_pos by exact Hpos. f_equal. lia.
Qed.

Lemma elementAt_whole {A} (l : list A) m :
  0 <= m -> elementAt l (Num.Fin (m * Num.U)) = l !! Z.to_nat m.
Proof.
  intros Hm. pose proof U_pos as HU. unfold elementAt.
  replace (0 <=? m * Num.U) with true by (symmetry; apply Z.leb_le; nia).
  rewrite Z.mod_mul, Z.div_mul by lia. reflexivity.
Qed.

Lemma safeIdx_whole i len :
  (0 < len)%nat -> Z.of_nat len < 2 ^ 53 ->
  safeIdx (Num.Fin (i * Num.U)) len
  = Num.Fin (Z.max 0 (Z.min i (Z.of_nat len - 1)) * Num.U).
Proof.
  intros Hlen Hbig. pose proof U_pos as HU. unfold safeIdx.
  rewrite (ofZ_exact 0) by lia. rewrite (ofZ_exact (Z.of_nat len - 1)) by lia.
  set (L := Z.of_nat len - 1). assert (HL : 0 <= L) by lia. clearbody L.
  unfold orElse. cbn [Num.truthy].
  assert (E : (if negb (i * Num.U =? 0) then Num.Fin (i * Num.U) else Num.Fin (0 * Num.U))
              = Num.Fin (i * Num.U)).
  { destruct (Z.eqb_spec (i * Num.U) 0) as [E|_]; [|reflexivity]. simpl. now rewrite E. }
  rewrite E. cbn [Num.min Num.ltb Math_max].
  destruct (Z.ltb_spec (L * Num.U) (i * Num.U)).
  - cbn [Num.ltb]. destruct (Z.ltb_spec (0 * Num.U) (L * Num.U)); f_equal; nia.
  - cbn [Num.ltb]. destruct (Z.ltb_spec (0 * Num.U) (i * Num.U)); f_equal; nia.
Qed.

Lemma safeIdx_NaN len :
  (0 < len)%nat -> Z.of_nat len < 2 ^ 53 -> safeIdx Num.NaN len = Num.Fin (0 * Num.U).
Proof.
  intros Hlen Hbig. pose proof U_pos as HU. unfold safeIdx.
  rewrite (ofZ_exact 0) by lia. rewrite (ofZ_exact (Z.of_nat len - 1)) by lia.
  unfold orElse. cbn [Num.truthy Num.min Num.ltb Math_max].
  destruct (Z.ltb_spec ((Z.of_nat len - 1) * Num.U) (0 * Num.U)); cbn [Num.ltb].
  - destruct (Z.ltb_spec (0 * Num.U) ((Z.of_nat len - 1) * Num.U)); f_equal; nia.
  - rewrite Z.ltb_irrefl. reflexivity.
Qed.

(** For an identifier that has navaids, a whole-number index selects a
    record of the list whatever the index is: one below the list selects
    the first record, one beyond it the last.  An index that is not a
    number selects the first.  (The list is shorter than [2^32], as every
    array is.) *)
Theorem selectNavaid_in_range (m : NavaidMaps) (ident : option string)
  (list : list Navaid) (i : Z) :
  navaidByIdent m !! Str.toUpperCase (norm ident) = Some list ->
  list <> [] ->
  Z.of_nat (length list) < 2 ^ 32 ->
  selectNavaid m ident (Num.Fin (i * Num.U))
    = list !! Z.to_nat (Z.max 0 (Z.min i (Z.of_nat (length list) - 1)))
  /\ is_Some (selectNavaid m ident (Num.Fin (i * Num.U)))
  /\ selectNavaid m ident Num.NaN = head list.
Proof.
  intros Hm Hne Hbig. unfold selectNavaid. rewrite Hm.
  destruct list as [|a l]; [congruence|]. set (list := a :: l) in *.
  assert (Hlen : (0 < length list)%nat) by (simpl; lia).
  assert (Hbig' : Z.of_nat (length list) < 2 ^ 53) by lia.
  rewrite safeIdx_whole, safeIdx_NaN, !elementAt_whole by (assumption || lia).
  split; [reflexivity|]. split; [|reflexivity].
  apply lookup_lt_is_Some. lia.
Qed.

Lemma selectNavaid_in_range_witness :
  selectNavaid sampleNavaidMaps (Some " abc ") (Num.Fin (7 * Num.U))
    = Some (sampleNavaid "Zulu")
  /\ selectNavaid sampleNavaidMaps (Some " abc ") (Num.Fin (-1 * Num.U))
    = Some (sampleNavaid "Alpha").
Proof.
  split.
  - rewrite (proj1 (selectNavaid_in_range sampleNavaidMaps (Some " abc ")
                      [sampleNavaid "Alpha"; sampleNavaid "Mike"; sampleNavaid "Zulu"] 7
                      eq_refl ltac:(discriminate) ltac:(reflexivity))).
    reflexivity.
  - rewrite (proj1 (selectNavaid_in_range sampleNavaidMaps (Some " abc ")
                      [sampleNavaid "Alpha"; sampleNavaid "Mike"; sampleNavaid "Zulu"] (-1)
                      eq_refl ltac:(discriminate) ltac:(reflexivity))).
    reflexivity.
Defined.

(** ** The matcher: what a successful run has read *)

Lemma run_sound r : forall st k e,
  Re.run r st k = Some e -> exists st', steps r st st' /\ k st' = Some e.
Proof.
  induction r as [|p|a IHa b IHb|a IHa b IHb|a IHa|n a IHa| | |]; intros st k e H.
  - exists st. split; [reflexivity|exact H].
  - rewrite run_Chr in H. destruct (Re.rest st) as [|c t] eqn:Er; [discriminate|].
    destruct (p c) eqn:Ep; [|discriminate].
    eexists. split; [|exact H]. exists c, t. auto.
  - rewrite run_Seq in H. apply IHa in H as (mid & Ha & H).
    apply IHb in H as (st' & Hb & H). exists st'. split; [|exact H].
    exists mid. auto.
  - rewrite run_Alt in H. destruct (Re.run a st k) as [e'|] eqn:Ea.
    + injection H as ->. apply IHa in Ea as (st' & Ha & Hk).
      exists st'. split; [left; exact Ha|exact Hk].
    + apply IHb in H as (st' & Hb & Hk). exists st'. split; [right; exact Hb|exact Hk].
  - cbn [Re.run] in H. revert H.
    generalize (String.length (Re.rest st)) as m. intros m. revert st.
    induction m as [|m IHm]; intros st H.
    + exists st. split; [apply rtc_refl|exact H].
    + destruct (Re.run a st _) as [e'|] eqn:Ea.
      * injection H as ->. apply IHa in Ea as (st1 & Ha & Hk).
        destruct (_ <? _)%nat; [|discriminate].
        apply IHm in Hk as (st' & Hs & Hk). exists st'. split; [|exact Hk].
        eapply rtc_l; [exact Ha|exact Hs].
      * exists st. split; [apply rtc_refl|exact H].
  - cbn [Re.run] in H. apply IHa in H as (st1 & Ha & Hk).
    eexists. split; [|exact Hk]. exists st1. auto.
  - cbn [Re.run] in H. destruct (xorb _ _) eqn:Ex; [|discriminate].
    exists st. cbn [steps]. auto.
  - cbn [Re.run] in H. destruct (Re.prev st) eqn:Ep; [discriminate|].
    exists st. cbn [steps]. auto.
  - cbn [Re.run] in H. destruct (Re.rest st) eqn:Er; [|discriminate].
    exists st. cbn [steps]. auto.
Qed.

Lemma sticky_sound r p s e :
  Re.sticky r p s = Some e -> steps r (Re.MState p s []) e.
Proof.
  unfold Re.sticky. intros H. apply run_sound in H as (st' & Hs & [= <-]). exact Hs.
Qed.

Lemma exec_from_sound r : forall s p h,
  Re.exec_from r p s = Some h ->
  exists before p' s' e, s = before ++ s' /\ steps r (Re.MState p' s' []) e
    /\ h = Re.Hit (Re.consumed s' (Re.rest e)) (Re.caps e).
Proof.
  induction s as [|c s IH]; intros p h; cbn [Re.exec_from].
  - destruct (Re.sticky r p "") as [e|] eqn:Es; [|discriminate].
    intros [= <-]. apply sticky_sound in Es. exists "". eauto 6.
  - destruct (Re.sticky r p (String c s)) as [e|] eqn:Es.
    + intros [= <-]. apply sticky_sound in Es. exists "". eauto 6.
    + intros H. apply IH in H as (before & p' & s' & e & -> & Hs & ->).
      exists (String c before). eauto 6.
Qed.

Lemma consumed_app x t : Re.consumed (x ++ t) t = x.
Proof.
  unfold Re.consumed. rewrite slength_app.
  replace (String.length x + String.length t - String.length t)%nat
    with (String.length x) by lia.
  induction x as [|c x IH]; simpl; [now destruct t|]. now rewrite IH.
Qed.

(** ** The wind group *)

Lemma steps_Chr_inv p st st' :
  steps (Re.Chr p) st st' ->
  exists c, p c = true /\ Re.rest st = String c (Re.rest st')
            /\ Re.caps st' = Re.caps st.
Proof. intros (c & t & Hr & Hp & ->). exists c. auto. Qed.

Lemma steps_lit_inv d st st' :
  steps (Re.lit d) st st' ->
  Re.rest st = String d (Re.rest st') /\ Re.caps st' = Re.caps st.
Proof.
  intros (c & Hp & Hr & Hc)%steps_Chr_inv. apply Ascii.eqb_eq in Hp. subst c. auto.
Qed.

Lemma steps_digits3 st st' :
  steps (Re.Seq re_d (Re.Seq re_d re_d)) st st' ->
  exists x, isDigits 3 3 x /\ Re.rest st = x ++ Re.rest st'
            /\ Re.caps st' = Re.caps st.
Proof.
  intros (s1 & (a & Ha & Ra & Ca)%steps_Chr_inv & s2 & (b & Hb & Rb & Cb)%steps_Chr_inv
          & (c & Hc & Rc & Cc)%steps_Chr_inv).
  exists (String a (String b (String c ""))). split; [|split].
  - split; [simpl; lia|]. simpl. now rewrite Ha, Hb, Hc.
  - simpl. congruence.
  - congruence.
Qed.

Lemma steps_digits23 st st' :
  steps (Re.Seq re_d (Re.Seq re_d (optional re_d))) st st' ->
  exists x, isDigits 2 3 x /\ Re.rest st = x ++ Re.rest st'
            /\ Re.caps st' = Re.caps st.
Proof.
  intros (s1 & (a & Ha & Ra & Ca)%steps_Chr_inv & s2 & (b & Hb & Rb & Cb)%steps_Chr_inv
          & [(c & Hc & Rc & Cc)%steps_Chr_inv | ->]).
  - exists (String a (String b (String c ""))). split; [|split].
    + split; [simpl; lia|]. simpl. now rewrite Ha, Hb, Hc.
    + simpl. congruence.
    + congruence.
  - exists (String a (String b "")). split; [|split].
    + split; [simpl; lia|]. simpl. now rewrite Ha, Hb.
    + simpl. congruence.
    + congruence.
Qed.

Lemma steps_VRB st st' :
  steps (Re.word "VRB") st st' ->
  Re.rest st = "VRB" ++ Re.rest st' /\ Re.caps st' = Re.caps st.
Proof.
  intros (s1 & [R1 C1]%steps_lit_inv & s2 & [R2 C2]%steps_lit_inv & [R3 C3]%steps_lit_inv).
  split; [simpl|]; congruence.
Qed.

Lemma steps_KT st st' :
  steps (Re.word "KT") st st' ->
  Re.rest st = "KT" ++ Re.rest st' /\ Re.caps st' = Re.caps st.
Proof.
  intros (s1 & [R1 C1]%steps_lit_inv & [R2 C2]%steps_lit_inv).
  split; [simpl|]; congruence.
Qed.

Lemma steps_Group_inv (P : string -> Prop) n a st st' :
  (forall s1, steps a st s1 ->
     exists x, P x /\ Re.rest st = x ++ Re.rest s1 /\ Re.caps s1 = Re.caps st) ->
  steps (Re.Group n a) st st' ->
  exists x, P x /\ Re.rest st = x ++ Re.rest st'
            /\ Re.caps st' = (n, x) :: Re.caps st.
Proof.
  intros Ha (s1 & Hs & ->). destruct (Ha s1 Hs) as (x & Hx & Hr & Hc).
  exists x. cbn [Re.rest Re.caps]. split; [exact Hx|]. split; [exact Hr|].
  rewrite Hr, consumed_app, Hc. reflexivity.
Qed.

Lemma steps_windRe st e :
  steps windRe st e ->
  exists g1 g2 gust more,
    Re.rest st = g1 ++ g2 ++ gust ++ "KT" ++ Re.rest e
    /\ (g1 = "VRB" \/ isDigits 3 3 g1)
    /\ isDigits 2 3 g2
    /\ Re.caps e = (more ++ [(2%nat, g2); (1%nat, g1)] ++ Re.caps st)%list
    /\ Forall (fun c => fst c = 3%nat) more.
Proof.
  unfold windRe.
  intros (s1 & [_ ->] & s2 & Hg1 & s3 & Hg2 & s4 & Hgust & s5 & Hkt & [_ ->]).
  apply (steps_Group_inv (fun x => x = "VRB" \/ isDigits 3 3 x)) in Hg1
    as (g1 & Hg1 & R1 & C1).
  2:{ intros s [H|H].
      - apply steps_digits3 in H as (x & Hx & Hr & Hc). exists x. auto.
      - apply steps_VRB in H as [Hr Hc]. exists "VRB". auto. }
  apply (steps_Group_inv (isDigits 2 3)) in Hg2 as (g2 & Hg2 & R2 & C2).
  2:{ intros s H. now apply steps_digits23 in H. }
  apply steps_KT in Hkt as [R5 C5].
  destruct Hgust as [(s6 & [R6 C6]%steps_lit_inv & Hg3) | ->].
  - apply (steps_Group_inv (isDigits 2 3)) in Hg3 as (g3 & Hg3 & R7 & C7).
    2:{ intros s H. now apply steps_digits23 in H. }
    exists g1, g2, (String "G" g3), [(3%nat, g3)].
    split; [|split; [exact Hg1|split; [exact Hg2|split]]].
    + rewrite R1, R2, R6, R7, R5. reflexivity.
    + rewrite C5, C7, C6, C2, C1. reflexivity.
    + repeat constructor.
  - exists g1, g2, "", [].
    split; [|split; [exact Hg1|split; [exact Hg2|split]]].
    + rewrite R1, R2, R5. reflexivity.
    + rewrite C5, C2, C1. reflexivity.
    + constructor.
Qed.

(** *** The number that a text of digits reads as *)

Lemma digit_not_ws c : Str.isDigit c = true -> Str.isWhiteSpace c = false.
Proof. destruct c as [[] [] [] [] [] [] [] []]; try discriminate; reflexivity. Qed.

Lemma digit_upper c : Str.isDigit c = true -> Str.upperChar c = c.
Proof. destruct c as [[] [] [] [] [] [] [] []]; try discriminate; reflexivity. Qed.

Lemma digit_not_prefix_letter c :
  Str.isDigit c = true ->
  Ascii.eqb c "x" || Ascii.eqb c "X" = false
  /\ Ascii.eqb c "o" || Ascii.eqb c "O" = false
  /\ Ascii.eqb c "b" || Ascii.eqb c "B" = false.
Proof. destruct c as [[] [] [] [] [] [] [] []]; try discriminate; auto. Qed.

Lemma digitValue_digit c : Str.isDigit c = true -> 0 <= Num.digitValue c <= 9.
Proof.
  intros H. unfold Num.digitValue. rewrite H. unfold Str.isDigit in H.
  apply andb_prop in H as [H1 H2]. apply N.leb_le in H1, H2. lia.
Qed.

Lemma upper_digits x : Str.allChars Str.isDigit x = true -> Str.toUpperCase x = x.
Proof.
  induction x as [|c x IH]; simpl; [reflexivity|].
  intros [Hc Hx]%andb_prop. now rewrite digit_upper, IH.
Qed.

Lemma trim_digits x : Str.allChars Str.isDigit x = true -> Str.trim x = x.
Proof.
  intros H. unfold Str.trim.
  assert (Hs : Str.trimStart x = x).
  { destruct x as [|c x]; [reflexivity|]. simpl in H. apply andb_prop in H as [Hc _].
    simpl. now rewrite (digit_not_ws c Hc). }
  rewrite Hs. clear Hs. induction x as [|c x IH]; [reflexivity|].
  simpl in H. apply andb_prop in H as [Hc Hx]. simpl.
  rewrite (digit_not_ws c Hc), (IH Hx). reflexivity.
Qed.

Lemma spanDigits_digits x :
  Str.allChars Str.isDigit x = true -> Num.spanDigits x = (x, "").
Proof.
  induction x as [|c x IH]; simpl; [reflexivity|].
  intros [Hc Hx]%andb_prop. now rewrite Hc, (IH Hx).
Qed.

Lemma parseNonDecimal_digits x :
  Str.allChars Str.isDigit x = true -> Num.parseNonDecimal x = None.
Proof.
  destruct x as [|a [|b ds]]; [reflexivity| |].
  - intros _. destruct a as [[] [] [] [] [] [] [] []]; reflexivity.
  - simpl. intros [_ [Hb _]%andb_prop]%andb_prop.
    destruct (digit_not_prefix_letter b Hb) as (E1 & E2 & E3).
    destruct a as [[] [] [] [] [] [] [] []]; try reflexivity.
    unfold Num.parseNonDecimal. rewrite E1, E2, E3. reflexivity.
Qed.

Lemma valueIn_bound x : forall acc,
  Str.allChars Str.isDigit x = true -> 0 <= acc ->
  0 <= Num.valueIn 10 acc x < (acc + 1) * 10 ^ Z.of_nat (String.length x).
Proof.
  induction x as [|c x IH]; intros acc Hx Hacc.
  - simpl. lia.
  - simpl in Hx. apply andb_prop in Hx as [Hc Hx].
    pose proof (digitValue_digit c Hc) as Hd.
    cbn [Num.valueIn String.length]. rewrite Nat2Z.inj_succ, Z.pow_succ_r by lia.
    specialize (IH (10 * acc + Num.digitValue c) Hx ltac:(lia)).
    assert (0 < 10 ^ Z.of_nat (String.length x)) by (apply Z.pow_pos_nonneg; lia).
    nia.
Qed.

(** A text of digits reads as the whole number that it writes. *)
Lemma ofString_digits x :
  Str.allChars Str.isDigit x = true -> x <> "" ->
  Num.ofString x = Num.ofZ (Num.valueIn 10 0 x).
Proof.
  intros Hx Hne.
  assert (Ha : exists a t, x = String a t /\ Str.isDigit a = true).
  { destruct x as [|a t]; [congruence|]. simpl in Hx. apply andb_prop in Hx as [Ha _].
    eauto. }
  destruct Ha as (a & t & Ex & Ha).
  assert (Hsign : match x with
                  | String "+" u => (false, u)
                  | String "-" u => (true, u)
                  | _ => (false, x)
                  end = (false, x)).
  { rewrite Ex. clear -Ha.
    destruct a as [[] [] [] [] [] [] [] []]; try reflexivity; discriminate. }
  assert (Hinf : String.eqb x "Infinity" = false).
  { apply String.eqb_neq. intros E. rewrite E in Ex. injection Ex as <- _. discriminate. }
  assert (He : Str.isEmpty x = false) by now apply isEmpty_false_iff.
  unfold Num.ofString. rewrite (trim_digits x Hx), He, (parseNonDecimal_digits x Hx).
  rewrite Hsign, Hinf. unfold Num.parseUnsignedDecimal.
  rewrite (spanDigits_digits x Hx), He. cbn [Num.parseExponent].
  unfold Num.ofDecimal, Num.ofZ. cbn [Z.leb Z.compare].
  rewrite Z.pow_0_r, Z.mul_1_r. reflexivity.
Qed.

Lemma digits_value lo hi x :
  isDigits lo hi x -> (1 <= lo)%nat -> (hi <= 3)%nat ->
  exists n, 0 <= n < 1000 /\ Num.Number (Some x) = Num.Fin (n * Num.U).
Proof.
  intros [[Hlo Hhi] Hx] H1 H3. cbn [Num.Number].
  rewrite ofString_digits; [|exact Hx|destruct x; [simpl in Hlo; lia|discriminate]].
  pose proof (valueIn_bound x 0 Hx ltac:(lia)) as [Hv0 Hv1].
  assert (Hpow : 10 ^ Z.of_nat (String.length x) <= 10 ^ 3)
    by (apply Z.pow_le_mono_r; lia).
  assert (Hv : Num.valueIn 10 0 x < 1000).
  { apply Z.lt_le_trans with (10 ^ Z.of_nat (String.length x)); [lia|exact Hpow]. }
  exists (Num.valueIn 10 0 x). split; [lia|].
  apply ofZ_exact. split; [exact Hv0|].
  apply Z.lt_trans with 1000; [exact Hv|reflexivity].
Qed.

Lemma direction_finite x :
  isDigits 3 3 x ->
  Str.toUpperCase x = x /\ Num.isFinite (Num.Number (Some (Str.toUpperCase x))) = true.
Proof.
  intros H. pose proof H as [_ Hx]. rewrite (upper_digits x Hx).
  split; [reflexivity|].
  destruct (digits_value 3 3 x H) as (n & _ & ->); [lia..|reflexivity].
Qed.

Lemma group_lookup more g2 g1 :
  Forall (fun c : nat * string => fst c = 3%nat) more ->
  Re.group (Re.Hit "" (more ++ [(2%nat, g2); (1%nat, g1)])) 1 = Some g1
  /\ Re.group (Re.Hit "" (more ++ [(2%nat, g2); (1%nat, g1)])) 2 = Some g2.
Proof.
  unfold Re.group. cbn [Re.groups].
  induction 1 as [|[n x] more Hn _ IH]; [split; reflexivity|].
  simpl in Hn. subst n. exact IH.
Qed.

Lemma exec_windRe m h :
  Re.exec windRe m = Some h ->
  exists before g1 g2 gust after,
    m = before ++ g1 ++ g2 ++ gust ++ "KT" ++ after
    /\ (g1 = "VRB" \/ isDigits 3 3 g1)
    /\ isDigits 2 3 g2
    /\ Re.matched h = g1 ++ g2 ++ gust ++ "KT"
    /\ Re.group h 1 = Some g1
    /\ Re.group h 2 = Some g2.
Proof.
  unfold Re.exec. intros Hx.
  apply exec_from_sound in Hx as (before & p' & s' & e & Hm & Hs & ->).
  apply steps_windRe in Hs as (g1 & g2 & gust & more & Hr & Hg1 & Hg2 & Hc & Hmore).
  cbn [Re.rest Re.caps] in Hr, Hc. rewrite app_nil_r in Hc.
  destruct (group_lookup more g2 g1 Hmore) as [G1 G2].
  exists before, g1, g2, gust, (Re.rest e).
  split; [now rewrite Hm, Hr|]. split; [exact Hg1|]. split; [exact Hg2|].
  unfold Re.group in *. cbn [Re.groups Re.matched] in *. rewrite Hc.
  split; [|split; assumption].
  rewrite Hr. rewrite <- (consumed_app (g1 ++ g2 ++ gust ++ "KT") (Re.rest e)).
  now rewrite !sapp_assoc.
Qed.

Lemma direction_nonempty g1 : g1 = "VRB" \/ isDigits 3 3 g1 -> g1 <> "".
Proof.
  intros [->|[[Hl _] _]]; [discriminate|].
  destruct g1; [simpl in Hl; lia|discriminate].
Qed.

(** What [parseWindFromMetar] gives: nothing (an empty direction, an
    empty raw text and no speed) when the report has no wind group, and
    otherwise a raw text that is not empty and stands in the report, a
    direction that is [VRB] or three digits, and a speed that is a whole
    number below 1000. *)
Theorem parseWindFromMetar_shape (metar : option string) :
  let w := parseWindFromMetar metar in
  (Wind.raw w = "" /\ Wind.dir w = "" /\ Wind.spd w = Num.NaN)
  \/ (Wind.raw w <> ""
      /\ isSubstring (Wind.raw w) (Str.toUpperCase (norm metar))
      /\ (Wind.dir w = "VRB" \/ isDigits 3 3 (Wind.dir w))
      /\ exists n, 0 <= n < 1000 /\ Wind.spd w = Num.Fin (n * Num.U)).
Proof.
  cbv zeta. unfold parseWindFromMetar.
  destruct (Re.exec windRe _) as [h|] eqn:Hx; [right|left; auto].
  apply exec_windRe in Hx
    as (before & g1 & g2 & gust & after & Hm & Hg1 & Hg2 & Hraw & G1 & G2).
  cbn [Wind.raw Wind.dir Wind.spd]. rewrite Hraw, G1, G2. cbn [default].
  split; [|split; [|split]].
  - pose proof (direction_nonempty g1 Hg1) as Hne.
    destruct g1; [congruence|discriminate].
  - exists before, after. rewrite Hm. now rewrite !sapp_assoc.
  - exact Hg1.
  - apply (digits_value 2 3 g2 Hg2); lia.
Qed.

(** ** The runway helper *)

Lemma lgaBand14_depart dir imc s :
  lgaBand14 dir imc = Some s -> Str.startsWith s "Depart" = true.
Proof.
  unfold lgaBand14.
  destruct (_ || _); [destruct imc; intros [= <-]; reflexivity|].
  destruct (_ && _); [intros [= <-]; reflexivity|].
  destruct (_ && _); [intros [= <-]; reflexivity|].
  destruct (_ && _); [intros [= <-]; reflexivity|discriminate].
Qed.

Lemma lgaBand27_depart dir imc s :
  lgaBand27 dir imc = Some s -> Str.startsWith s "Depart" = true.
Proof.
  unfold lgaBand27.
  destruct (_ || _); [destruct imc; intros [= <-]; reflexivity|].
  destruct (_ && _); [intros [= <-]; reflexivity|].
  destruct (_ && _); [intros [= <-]; reflexivity|].
  destruct (_ && _); [intros [= <-]; reflexivity|discriminate].
Qed.

Lemma lgaStrong_depart dir imc : Str.startsWith (lgaStrong dir imc) "Depart" = true.
Proof.
  unfold lgaStrong.
  destruct (Num.leb dir (numLit 89)); [reflexivity|].
  destruct (Num.leb dir (numLit 179)); [destruct imc; reflexivity|].
  destruct (Num.leb dir (numLit 269)); reflexivity.
Qed.

Lemma lga_config_depart rawDir rawSpd rawCat :
  rawDir <> "" -> Num.isFinite rawSpd = true ->
  Str.toUpperCase rawDir = "VRB"
  \/ Num.isFinite (Num.Number (Some (Str.toUpperCase rawDir))) = true ->
  Str.startsWith (lgaSuggestedConfigFromInputs rawDir rawSpd rawCat) "Depart" = true.
Proof.
  intros Hdir%isEmpty_false_iff Hspd Hvalid.
  unfold lgaSuggestedConfigFromInputs. rewrite Hdir, Hspd. cbn [negb orb].
  destruct (String.eqb_spec (Str.toUpperCase rawDir) "VRB") as [E|E]; [reflexivity|].
  destruct Hvalid as [Hv|Hv]; [contradiction|]. rewrite Hv. cbn [negb].
  destruct (Num.leb rawSpd (numLit 4)); [reflexivity|].
  destruct (Num.leb rawSpd (numLit 14)).
  - destruct (lgaBand14 _ _) as [s|] eqn:E14; [exact (lgaBand14_depart _ _ _ E14)|].
    destruct (Num.leb rawSpd (numLit 27)); [|apply lgaStrong_depart].
    destruct (lgaBand27 _ _) as [s|] eqn:E27;
      [exact (lgaBand27_depart _ _ _ E27)|apply lgaStrong_depart].
  - destruct (Num.leb rawSpd (numLit 27)); [|apply lgaStrong_depart].
    destruct (lgaBand27 _ _) as [s|] eqn:E27;
      [exact (lgaBand27_depart _ _ _ E27)|apply lgaStrong_depart].
Qed.

Lemma jfk_config_depart rawDir rawSpd :
  rawDir <> "" -> Num.isFinite rawSpd = true ->
  Str.toUpperCase rawDir = "VRB"
  \/ Num.isFinite (Num.Number (Some (Str.toUpperCase rawDir))) = true ->
  Str.startsWith (jfkSuggestedConfigFromInputs rawDir rawSpd) "Depart" = true.
Proof.
  intros Hdir%isEmpty_false_iff Hspd Hvalid.
  unfold jfkSuggestedConfigFromInputs. rewrite Hdir, Hspd. cbn [negb orb].
  destruct (String.eqb_spec (Str.toUpperCase rawDir) "VRB") as [E|E];
    cbn [orb]; [reflexivity|].
  destruct (Num.leb rawSpd (numLit 4)); [reflexivity|].
  destruct Hvalid as [Hv|Hv]; [contradiction|]. rewrite Hv. cbn [negb].
  destruct (Num.leb _ (numLit 99)); [reflexivity|].
  destruct (Num.leb _ (numLit 159)); [reflexivity|].
  destruct (Num.leb _ (numLit 259)); reflexivity.
Qed.

Lemma orDash_depart x : Str.startsWith x "Depart" = true -> orDash x = x.
Proof. destruct x; [discriminate|reflexivity]. Qed.

(** For KLGA and KJFK the runway helper suggests a configuration exactly
    when it finds a wind group in the report: with one, the answer of the
    decision tree, which begins with "Depart"; without one, a dash.  For
    any other station it prints a dash. *)
Theorem runwayHelperConfig_wind (icao metar : option string) :
  let ident := Str.toUpperCase (norm icao) in
  let w := parseWindFromMetar (Some (norm metar)) in
  let config := runwayHelperConfig icao metar in
  if String.eqb ident "KLGA" || String.eqb ident "KJFK"
  then (Wind.raw w = "" /\ config = "—")
       \/ (Wind.raw w <> "" /\ Str.startsWith config "Depart" = true)
  else config = "—".
Proof.
  cbv zeta. unfold runwayHelperConfig.
  set (w := parseWindFromMetar (Some (norm metar))).
  assert (Hw : (Wind.raw w = "" /\ Wind.dir w = "" /\ Wind.spd w = Num.NaN)
               \/ (Wind.raw w <> "" /\ Wind.dir w <> "" /\ Num.isFinite (Wind.spd w) = true
                   /\ (Str.toUpperCase (Wind.dir w) = "VRB"
                       \/ Num.isFinite (Num.Number (Some (Str.toUpperCase (Wind.dir w))))
                          = true))).
  { subst w. unfold parseWindFromMetar.
    destruct (Re.exec windRe _) as [h|] eqn:Hx; [right|left; auto].
    apply exec_windRe in Hx
      as (before & g1 & g2 & gust & after & Hm & Hg1 & Hg2 & Hraw & G1 & G2).
    cbn [Wind.raw Wind.dir Wind.spd]. rewrite Hraw, G1, G2. cbn [default].
    pose proof (direction_nonempty g1 Hg1) as Hne.
    split; [destruct g1; [congruence|discriminate]|]. split; [exact Hne|].
    split.
    - destruct (digits_value 2 3 g2 Hg2) as (n & _ & ->); [lia..|reflexivity].
    - destruct Hg1 as [->|Hd]; [left; reflexivity|right].
      apply (direction_finite _ Hd). }
  clearbody w.
  destruct (String.eqb (Str.toUpperCase (norm icao)) "KJFK") eqn:Ej.
  - rewrite orb_true_r. destruct Hw as [(Hr & Hd & Hs)|(Hr & Hd & Hs & Hv)].
    + left. split; [exact Hr|]. rewrite Hd. reflexivity.
    + right. split; [exact Hr|].
      pose proof (jfk_config_depart _ _ Hd Hs Hv) as H. now rewrite (orDash_depart _ H).
  - rewrite orb_false_r.
    destruct (String.eqb (Str.toUpperCase (norm icao)) "KLGA") eqn:El; [|reflexivity].
    destruct Hw as [(Hr & Hd & Hs)|(Hr & Hd & Hs & Hv)].
    + left. split; [exact Hr|]. rewrite Hd. reflexivity.
    + right. split; [exact Hr|].
      pose proof (lga_config_depart _ _ (Some (cat (flightCategory (Some (norm metar)))))
                    Hd Hs Hv) as H.
      now rewrite (orDash_depart _ H).
Qed.

(** ** The order of the two search lists *)

Section SearchOrder.
Variable host : Host.

Hypothesis distance_finite : forall lat lon,
  Num.isFinite lat = true -> Num.isFinite lon = true ->
  Num.isFinite (haversineNM host KLGA_LAT KLGA_LON lat lon) = true.
Hypothesis localeCompare_exchange : forall a b,
  sortOrder (localeCompare host a b) = Gt -> sortOrder (localeCompare host b a) <> Gt.
Hypothesis localeCompare_trans : forall a b c,
  sortOrder (localeCompare host a b) <> Gt ->
  sortOrder (localeCompare host b c) <> Gt ->
  sortOrder (localeCompare host a c) <> Gt.





End SearchOrder.


(** ** The ceiling of a report *)

Lemma matchAll_from_sound r fuel : forall p s h,
  In h (Re.matchAll_from r fuel p s) ->
  exists p' s' e, steps r (Re.MState p' s' []) e
    /\ h = Re.Hit (Re.consumed s' (Re.rest e)) (Re.caps e).
Proof.
  induction fuel as [|fuel IH]; intros p s h; cbn [Re.matchAll_from]; [intros []|].
  destruct (Re.sticky r p s) as [e|] eqn:Es.
  - apply sticky_sound in Es.
    destruct (_ <? _)%nat.
    + intros [<-|Hin]; [eauto|]. eapply IH; exact Hin.
    + destruct s as [|c t].
      * intros [<-|[]]. eauto.
      * intros [<-|Hin]; [eauto|]. eapply IH; exact Hin.
  - destruct s as [|c t]; [intros []|]. apply IH.
Qed.

Lemma steps_word w : forall st st',
  steps (Re.word w) st st' ->
  Re.rest st = w ++ Re.rest st' /\ Re.caps st' = Re.caps st.
Proof.
  induction w as [|c w IH]; intros st st'.
  - cbn [Re.word steps]. intros ->. auto.
  - destruct w as [|c' w'].
    + cbn [Re.word]. apply steps_lit_inv.
    + change (Re.word (String c (String c' w')))
        with (Re.Seq (Re.lit c) (Re.word (String c' w'))).
      intros (s1 & [R1 C1]%steps_lit_inv & [R2 C2]%IH).
      split; [simpl in *|]; congruence.
Qed.

Lemma steps_ceilingRe st e :
  steps ceilingRe st e ->
  exists kind height,
    isDigits 3 3 height
    /\ Re.caps e = ([(2%nat, height); (1%nat, kind)] ++ Re.caps st)%list.
Proof.
  unfold ceilingRe.
  intros (s1 & [_ ->] & s2 & Hg1 & s3 & Hg2 & [_ ->]).
  apply (steps_Group_inv (fun _ => True)) in Hg1 as (kind & _ & R1 & C1).
  2:{ intros s [H|[H|H]]; apply steps_word in H as [Hr Hc]; eauto. }
  apply (steps_Group_inv (isDigits 3 3)) in Hg2 as (height & Hh & R2 & C2).
  2:{ intros s H. now apply steps_digits3 in H. }
  exists kind, height. split; [exact Hh|]. rewrite C2, C1. reflexivity.
Qed.

Lemma layer_height x :
  (exists p s e, steps ceilingRe (Re.MState p s []) e
     /\ x = Re.Hit (Re.consumed s (Re.rest e)) (Re.caps e)) ->
  exists n, 0 <= n < 1000 /\ Num.Number (Re.group x 2) = Num.Fin (n * Num.U).
Proof.
  intros (p & s & e & Hs & ->).
  apply steps_ceilingRe in Hs as (kind & height & Hh & Hc).
  unfold Re.group. cbn [Re.groups]. rewrite Hc. cbn.
  apply (digits_value 3 3 height Hh); lia.
Qed.

Lemma min_layer acc n :
  0 <= n < 1000 ->
  (acc = Num.Inf false \/ exists m, 0 <= m < 1000 /\ acc = Num.Fin (100 * m * Num.U)) ->
  exists m, 0 <= m < 1000
    /\ Num.min acc (Num.mul (Num.Fin (n * Num.U)) (Num.ofZ 100))
       = Num.Fin (100 * m * Num.U).
Proof.
  intros Hn Hacc. rewrite (ofZ_exact 100) by (split; [lia|reflexivity]).
  rewrite mul_whole; [|lia|lia|apply Z.lt_trans with 100000; [lia|reflexivity]].
  replace (n * 100) with (100 * n) by lia.
  destruct Hacc as [->|(m & Hm & ->)].
  - exists n. split; [exact Hn|reflexivity].
  - cbn [Num.min Num.ltb].
    destruct (100 * n * Num.U <? 100 * m * Num.U); eauto.
Qed.

Lemma fold_layers layers : forall acc,
  Forall (fun x => exists n, 0 <= n < 1000
                     /\ Num.Number (Re.group x 2) = Num.Fin (n * Num.U)) layers ->
  (acc = Num.Inf false \/ exists m, 0 <= m < 1000 /\ acc = Num.Fin (100 * m * Num.U)) ->
  let res :=
    fold_left (fun minFt x =>
        let h := Num.Number (Re.group x 2) in
        if Num.isFinite h then Num.min minFt (Num.mul h (Num.ofZ 100)) else minFt)
      layers acc in
  (layers = [] /\ res = acc)
  \/ (layers <> [] /\ exists m, 0 <= m < 1000 /\ res = Num.Fin (100 * m * Num.U)).
Proof.
  induction layers as [|x layers IH]; intros acc Hall Hacc; [left; auto|].
  right. split; [discriminate|].
  apply Forall_cons_iff in Hall as [(n & Hn & Hx) Hall].
  cbn [fold_left]. rewrite Hx. cbn [Num.isFinite].
  destruct (min_layer acc n Hn Hacc) as (m & Hm & Emin). rewrite Emin.
  destruct (IH (Num.Fin (100 * m * Num.U)) Hall) as [[-> Hres]|[_ Hres]]; [eauto| |exact Hres].
  cbn [fold_left]. eauto.
Qed.

(** The ceiling of a report is infinite exactly when the report names
    no broken, overcast or vertical-visibility layer, and otherwise a
    whole number of hundreds of feet from 0 to 99,900: it is never
    undefined, so the test of the height of a layer never fails. *)
Theorem parseCeilFt_range (metar : string) :
  (Re.matchAll ceilingRe metar = [] /\ parseCeilFt metar = Num.Inf false)
  \/ (Re.matchAll ceilingRe metar <> []
      /\ exists n, 0 <= n < 1000 /\ parseCeilFt metar = Num.Fin (100 * n * Num.U)).
Proof.
  unfold parseCeilFt.
  assert (Hall : Forall (fun x => exists n, 0 <= n < 1000
                   /\ Num.Number (Re.group x 2) = Num.Fin (n * Num.U))
                   (Re.matchAll ceilingRe metar)).
  { apply List.Forall_forall. intros x Hx. apply layer_height.
    unfold Re.matchAll in Hx. now apply matchAll_from_sound in Hx. }
  destruct (fold_layers (Re.matchAll ceilingRe metar) (Num.Inf false) Hall (or_introl eq_refl))
    as [[E Hres]|[Hne Hres]].
  - left. rewrite E. auto.
  - right. split; [exact Hne|].
    destruct (Re.matchAll ceilingRe metar); [congruence|exact Hres].
Qed.

(** ** Blank coordinates *)

Lemma toNumberOrNaN_blank v : norm v = "" -> toNumberOrNaN v = Num.Fin 0.
Proof. intros H. unfold toNumberOrNaN. rewrite H. reflexivity. Qed.

(** A row whose two coordinates are blank or missing does not give a
    record at an unknown position: both coordinates read as zero, and the
    distance is the one from KLGA to the point at latitude 0 and longitude
    0, not the infinite distance of an unknown position. *)
Theorem navaidOf_blank_coordinates (host : Host) (ident : string) (r : Row) :
  norm (r !! "latitude_deg") = "" ->
  norm (r !! "longitude_deg") = "" ->
  LAT (navaidOf host ident r) = Num.Fin 0
  /\ LON (navaidOf host ident r) = Num.Fin 0
  /\ DIST_NM (navaidOf host ident r)
     = haversineNM host KLGA_LAT KLGA_LON (Num.Fin 0) (Num.Fin 0).
Proof.
  intros Hlat Hlon. unfold navaidOf. cbn [LAT LON DIST_NM].
  rewrite (toNumberOrNaN_blank _ Hlat), (toNumberOrNaN_blank _ Hlon).
  repeat split; reflexivity.
Qed.

Lemma navaidOf_blank_coordinates_witness :
  LAT (navaidOf sampleHost "ABC" (navaidRow "ABC" "Alpha" "" "  ")) = Num.Fin 0
  /\ DIST_NM (navaidOf sampleHost "ABC" (navaidRow "ABC" "Alpha" "" "  "))
     <> Num.Inf false.
Proof.
  destruct (navaidOf_blank_coordinates sampleHost "ABC" (navaidRow "ABC" "Alpha" "" "  ")
              ltac:(vm_compute; reflexivity) ltac:(vm_compute; reflexivity))
    as (H1 & _ & H3).
  split; [exact H1|]. rewrite H3. vm_compute. discriminate.
Defined.
